(** * ghttp: the request pipeline (retry, backoff, body replay)

    A shallow embedding of the core of the [ghttp] package: the two backoff
    strategies of [backoff.go], the retry policy and [drainBody] of
    [dump.go], [Request.SetBody] of [request.go] and the execution loop of
    the client ([Do], [doWithRetry], [do], the hook chains and the
    method helpers).

    Go values are modelled as the code has them:
    - [int], [int64] and [time.Duration] are 64-bit integers, kept in [Z]
      with the wrap-around written out ([wrap64]);
    - [float64] is IEEE-754 binary64, taken from the standard library's
      executable specification [SpecFloat] at precision 53 and [emax] 1024;
    - the world outside the package (network, clock, contexts, the global
      random source) is an abstract state threaded through the pipeline. *)

From Stdlib Require Import ZArith List String Bool Lia Ascii.
From Stdlib Require Import Floats.SpecFloat.
Import ListNotations.
Local Open Scope Z_scope.

(* ================================================================= *)
(** * Part I: definitions *)
(* ================================================================= *)

(** ** Go's 64-bit integers *)

Definition int64_min : Z := - 2 ^ 63.
Definition int64_max : Z := 2 ^ 63 - 1.

Definition in_int64 (z : Z) : Prop := int64_min <= z <= int64_max.

(** Two's complement wrap-around of an integer result. *)
Definition wrap64 (z : Z) : Z := (z + 2 ^ 63) mod 2 ^ 64 - 2 ^ 63.

(** ** Go's float64 *)

Definition float64 : Type := spec_float.

Definition f64_mul : float64 -> float64 -> float64 := SFmul 53 1024.
Definition f64_div : float64 -> float64 -> float64 := SFdiv 53 1024.
Definition f64_lt : float64 -> float64 -> bool := SFltb.
Definition f64_eq : float64 -> float64 -> bool := SFeqb.

(** [float64(z)] for a 64-bit integer [z]: round to nearest, ties to even. *)
Definition float64_of_int (z : Z) : float64 := binary_normalize 53 1024 z 0 false.

(** The float constants [1] and [2]. *)
Definition f64_one : float64 := S754_finite false 4503599627370496 (-52).
Definition f64_two : float64 := S754_finite false 4503599627370496 (-51).

(** The magnitude of a finite float, truncated toward zero. *)
Definition trunc_mag (m : positive) (e : Z) : Z :=
  if 0 <=? e then Zpos m * 2 ^ e else Zpos m / 2 ^ (- e).

(** [int64(f)]: truncation toward zero.  The language leaves the result
    implementation-dependent when the value does not fit (or is a NaN);
    the conversion yields the "integer indefinite" value [-2^63] there, as
    the gc compiler's code does on amd64. *)
Definition int64_of_float (f : float64) : Z :=
  match f with
  | S754_zero _ => 0
  | S754_finite s m e =>
      let v := if s then - trunc_mag m e else trunc_mag m e in
      if (int64_min <=? v) && (v <=? int64_max) then v else int64_min
  | S754_infinity _ => int64_min
  | S754_nan => int64_min
  end.

Definition f64_is_nan (f : float64) : bool :=
  match f with S754_nan => true | _ => false end.

Definition f64_is_inf (f : float64) (sign : Z) : bool :=
  match f with
  | S754_infinity s => if s then sign <=? 0 else 0 <=? sign
  | _ => false
  end.

Definition f64_signbit (f : float64) : bool :=
  match f with
  | S754_zero s | S754_infinity s | S754_finite s _ _ => s
  | S754_nan => false
  end.

Definition f64_is_zero (f : float64) : bool :=
  match f with S754_zero _ => true | _ => false end.

(** [math.Min]: the special cases first, then the comparison. *)
Definition math_Min (x y : float64) : float64 :=
  if f64_is_inf x (-1) || f64_is_inf y (-1) then S754_infinity true
  else if f64_is_nan x || f64_is_nan y then S754_nan
  else if f64_is_zero x && f64_eq x y then (if f64_signbit x then x else y)
  else if f64_lt x y then x else y.

(** The thresholds of [math.Exp2]: [Overflow = 1.0239999999999999e+03]
    is the float just below 1024 and [Underflow = -1.0740e+03]. *)
Definition exp2_Overflow : float64 := S754_finite false 9007199254740991 (-43).
Definition exp2_Underflow : float64 := S754_finite true 4723501952925696 (-42).

(** [math.Exp2(x)] on an integral argument, which is all that
    [float64(attemptNum)] produces: after the special cases and the two
    threshold tests the argument reduction leaves a zero remainder and
    the result is [Ldexp(1, k)], the power of two itself. *)
Definition math_Exp2 (x : float64) : float64 :=
  match x with
  | S754_nan => S754_nan
  | S754_infinity false => S754_infinity false
  | S754_infinity true => S754_zero false
  | _ =>
      if f64_lt exp2_Overflow x then S754_infinity false
      else if f64_lt x exp2_Underflow then S754_zero false
      else SFldexp 53 1024 f64_one (int64_of_float x)
  end.

(** ** math/rand *)

(** [rand.Int63n(n)] panics when [n <= 0] ([None]); otherwise it reduces
    the raw 63-bit sample [u] it accepts into [[0, n)]. *)
Definition rand_Int63n (u : Z) (n : Z) : option Z :=
  if n <=? 0 then None else Some (u mod n).

(** ** backoff.go *)

Record constantBackoff := {
  cb_initialDuration : Z;
  cb_jitter : bool
}.

Record exponentialBackoff := {
  eb_initialDuration : Z;
  eb_maxDuration : Z;
  eb_jitter : bool
}.

(** [constantBackoff.WaitTime]; [u] is the raw sample of the global
    random source, [None] is a panic.  The attempt number and the
    response are ignored, as in the source. *)
Definition constantBackoff_WaitTime (cb : constantBackoff) (attemptNum : Z) (u : Z)
  : option Z :=
  if negb (cb_jitter cb) then Some (cb_initialDuration cb)
  else
    match rand_Int63n u (cb_initialDuration cb) with
    | None => None
    | Some r => Some (wrap64 (Z.quot (cb_initialDuration cb) 2 + r))
    end.

(** The clamped value [temp] of [exponentialBackoff.WaitTime]. *)
Definition exponentialBackoff_temp (eb : exponentialBackoff) (attemptNum : Z) : float64 :=
  math_Min (float64_of_int (eb_maxDuration eb))
           (f64_mul (float64_of_int (eb_initialDuration eb))
                    (math_Exp2 (float64_of_int attemptNum))).

(** [exponentialBackoff.WaitTime]. *)
Definition exponentialBackoff_WaitTime (eb : exponentialBackoff) (attemptNum : Z) (u : Z)
  : option Z :=
  let temp := exponentialBackoff_temp eb attemptNum in
  if negb (eb_jitter eb) then Some (int64_of_float temp)
  else
    let n := int64_of_float (f64_div temp f64_two) in
    match rand_Int63n u n with
    | None => None
    | Some r => Some (wrap64 (n + r))
    end.

(** The value the specification calls [cappedValue]:
    [min(maxDuration, initialDuration * 2^i)] over the integers. *)
Definition cappedValue (eb : exponentialBackoff) (i : Z) : Z :=
  Z.min (eb_maxDuration eb) (eb_initialDuration eb * 2 ^ i).

(** ** Errors, bodies and responses *)

Definition error : Type := string.

(** [&Error{Op: op, Err: err}] of error.go, as the message it carries. *)
Definition wrapError (op : string) (e : error) : error :=
  (op ++ ": " ++ e)%string.

(** An [io.ReadCloser] used as a request body: the [http.NoBody] sentinel,
    or a single-use stream that yields [data] and then ends with EOF
    ([fail = None]) or with a read error. *)
Inductive ReadCloser :=
| NoBody
| Stream (data : list Byte.byte) (fail : option error).

(** Reading a body to its end: the bytes obtained and the error, if any. *)
Definition read_all (rc : ReadCloser) : list Byte.byte * option error :=
  match rc with
  | NoBody => ([], None)
  | Stream data fail => (data, fail)
  end.

(** The [io.Reader]s that [SetBody] tells apart by their dynamic type. *)
Inductive Reader :=
| BytesBuffer (unread : list Byte.byte)
| BytesReader (unread : list Byte.byte)
| StringsReader (unread : list Byte.byte)
| OtherReader (rc : ReadCloser).

(** The body of a raw response: what the transport delivered, or a
    [*gzip.Reader] over it ([None] is the nil pointer of that type). *)
Inductive ResponseBody :=
| WireBody (bs : list Byte.byte)
| GzipBody (r : option (list Byte.byte)).

Record RawResponse := {
  StatusCode : Z;
  ContentEncoding : string;
  RespContentLength : Z;
  RespBody : ResponseBody
}.

(** response.go: [Response] wraps the raw response and an error slot. *)
Record Response := {
  Raw : option RawResponse;
  content : option (list Byte.byte);
  err : option error
}.

Definition newResponse : Response :=
  {| Raw := None; content := None; err := None |}.

Definition set_err (resp : Response) (e : option error) : Response :=
  {| Raw := Raw resp; content := content resp; err := e |}.

Definition set_result (resp : Response) (r : option RawResponse) (e : option error)
  : Response :=
  {| Raw := r; content := content resp; err := e |}.

Definition AfterResponseHook : Type := Response -> Response * option error.

(** ** The retry policy (dump.go) *)

(** The [Backoff] interface.  The third argument of [WaitTime] is the raw
    sample the global random source yields if the implementation asks for
    one; [None] is a panic. *)
Record Backoff := {
  WaitTime : Z -> Response -> Z -> option Z
}.

Definition NewConstantBackoff (initialDuration : Z) (jitter : bool) : Backoff :=
  {| WaitTime := fun attemptNum _ u =>
       constantBackoff_WaitTime
         {| cb_initialDuration := initialDuration; cb_jitter := jitter |} attemptNum u |}.

Definition NewExponentialBackoff (initialDuration maxDuration : Z) (jitter : bool)
  : Backoff :=
  {| WaitTime := fun attemptNum _ u =>
       exponentialBackoff_WaitTime
         {| eb_initialDuration := initialDuration; eb_maxDuration := maxDuration;
            eb_jitter := jitter |} attemptNum u |}.

(** [backoff] is an interface value: [None] is the nil interface. *)
Record Retrier := {
  maxAttempts : Z;
  backoff : option Backoff;
  triggers : list (Response -> bool)
}.

Definition noRetry : Retrier :=
  {| maxAttempts := 1; backoff := None; triggers := [] |}.

Definition NewRetrier (maxAttempts : Z) (backoff : option Backoff)
  (triggers : list (Response -> bool)) : Retrier :=
  {| maxAttempts := maxAttempts; backoff := backoff; triggers := triggers |}.

(** The [for ... range r.triggers] loop of [on]. *)
Fixpoint on_loop (ts : list (Response -> bool)) (resp : Response) : bool :=
  match ts with
  | [] => false
  | trigger :: rest => if trigger resp then true else on_loop rest resp
  end.

Definition on (r : Retrier) (resp : Response) : bool :=
  if (Z.of_nat (List.length (triggers r)) =? 0) then false
  else on_loop (triggers r) resp.

Definition drainBody (body : ReadCloser) : list Byte.byte * option error :=
  read_all body.

(** ** Requests (request.go) *)

(** A context is a handle; whether it is cancelled is a fact of the world. *)
Definition Context : Type := Z.

Definition context_Background : Context := 0.

Record Request := {
  Method : string;
  URL : string;
  Body : option ReadCloser;
  GetBody : option (unit -> option ReadCloser * option error);
  ContentLength : Z;
  ctx : Context;
  retrier : option Retrier
}.

Definition RequestOption : Type := Request -> Request * option error.
Definition BeforeRequestHook : Type := RequestOption.

Definition with_body (req : Request) (b : option ReadCloser)
  (g : option (unit -> option ReadCloser * option error)) (len : Z) : Request :=
  {| Method := Method req; URL := URL req; Body := b; GetBody := g;
     ContentLength := len; ctx := ctx req; retrier := retrier req |}.

Definition set_Body (req : Request) (b : option ReadCloser) : Request :=
  with_body req b (GetBody req) (ContentLength req).

Definition SetRetry (req : Request) (r : option Retrier) : Request :=
  {| Method := Method req; URL := URL req; Body := Body req; GetBody := GetBody req;
     ContentLength := ContentLength req; ctx := ctx req; retrier := r |}.

(** [toReadCloser] of util.go. *)
Definition toReadCloser (r : option Reader) : option ReadCloser :=
  match r with
  | None => None
  | Some (OtherReader rc) => Some rc
  | Some (BytesBuffer bs) | Some (BytesReader bs) | Some (StringsReader bs) =>
      Some (Stream bs None)
  end.

Definition len64 (bs : list Byte.byte) : Z := Z.of_nat (List.length bs).

(** [Request.SetBody]: the type switch snapshots the in-memory readers,
    and a regenerable body of length zero becomes [http.NoBody]. *)
Definition SetBody (req : Request) (body : option Reader) : Request :=
  let req1 := set_Body req (toReadCloser body) in
  match body with
  | None => req1
  | Some v =>
      let req2 :=
        match v with
        | BytesBuffer buf | BytesReader buf | StringsReader buf =>
            with_body req1 (Body req1)
              (Some (fun _ : unit => (Some (Stream buf None), None))) (len64 buf)
        | OtherReader _ => req1
        end in
      match GetBody req2 with
      | Some _ =>
          if ContentLength req2 =? 0
          then with_body req2 (Some NoBody)
                 (Some (fun _ : unit => (Some NoBody, None))) (ContentLength req2)
          else req2
      | None => req2
      end
  end.

(** ** The world outside the package *)

(** What [http.Client.Do] returns: a response and no error, or an error
    (with whatever response came with it). *)
Inductive DoResult :=
| DoOk (r : RawResponse)
| DoErr (r : option RawResponse) (e : error).

(** What the pipeline leaves behind, in order. *)
Inductive event :=
| EvAttempt (req : Request) (res : DoResult)
| EvLimiterWait (e : option error)
| EvSleep (d : Z)
| EvCtxDone (e : option error).

(** The host's primitives over the state [W] of the world:
    - [ctx_Err c w] is [ctx.Err()];
    - [after_or_done d c w] is the [select] between [time.After(d)] and
      [ctx.Done()]: [true] when the timer fires, [false] when the context
      does;
    - [rand_source w] is the raw sample the global random source yields;
    - [gzip_NewReader_err bs] is the error of [gzip.NewReader] over [bs];
    - [http_NewRequest_err m u] is the error of [http.NewRequest(m, u, nil)]. *)
Class Host (W : Type) := {
  ctx_Err : Context -> W -> option error;
  after_or_done : Z -> Context -> W -> bool * W;
  rand_source : W -> Z;
  gzip_NewReader_err : list Byte.byte -> option error;
  http_NewRequest_err : string -> string -> option error
}.

(** rate.go: the [Limiter] interface. *)
Record Limiter (W : Type) := {
  Allow : Request -> bool;
  Wait : Context -> W -> option error * W
}.
Arguments Allow {W} _ _.
Arguments Wait {W} _ _ _.

(** The client: the embedded [*http.Client] is its [Do] method. *)
Record Client (W : Type) := {
  http_Do : Request -> W -> DoResult * W;
  limiter : option (Limiter W);
  beforeRequestHooks : list BeforeRequestHook;
  afterResponseHooks : list AfterResponseHook
}.
Arguments http_Do {W} _ _ _.
Arguments limiter {W} _.
Arguments beforeRequestHooks {W} _.
Arguments afterResponseHooks {W} _.

(** The state the pipeline threads: the world and the events so far. *)
Record State (W : Type) := {
  world : W;
  log : list event
}.
Arguments world {W} _.
Arguments log {W} _.

Inductive outcome (A : Type) :=
| Ok (a : A)
| Panicked.
Arguments Ok {A} _.
Arguments Panicked {A}.

(** A computation over the state that may panic. *)
Definition M (W A : Type) : Type := State W -> outcome A * State W.

Definition ret {W A} (a : A) : M W A := fun s => (Ok a, s).

Definition bind {W A B} (m : M W A) (k : A -> M W B) : M W B :=
  fun s => match m s with
           | (Ok a, s') => k a s'
           | (Panicked, s') => (Panicked, s')
           end.

Definition panic {W A} : M W A := fun s => (Panicked, s).

Definition emit {W} (e : event) : M W unit :=
  fun s => (Ok tt, {| world := world s; log := log s ++ [e] |}).

Definition lift {W A} (f : W -> A * W) : M W A :=
  fun s => let (a, w) := f (world s) in (Ok a, {| world := w; log := log s |}).

Definition peek {W A} (f : W -> A) : M W A :=
  fun s => (Ok (f (world s)), s).

Declare Scope pipe_scope.
Delimit Scope pipe_scope with pipe.
Notation "x <- m ;; k" := (bind m (fun x => k))
  (at level 61, m at next level, right associativity) : pipe_scope.
Notation "' p <- m ;; k" := (bind m (fun x => let p := x in k))
  (at level 61, p pattern, m at next level, right associativity) : pipe_scope.

(** ASCII case folding, for [strings.EqualFold] against ["gzip"]. *)
Definition lower (c : ascii) : ascii :=
  let n := nat_of_ascii c in
  if (65 <=? n)%nat && (n <=? 90)%nat then ascii_of_nat (n + 32) else c.

Fixpoint EqualFold (s t : string) : bool :=
  match s, t with
  | EmptyString, EmptyString => true
  | String a s', String b t' => Ascii.eqb (lower a) (lower b) && EqualFold s' t'
  | _, _ => false
  end.

Definition set_RespBody (r : RawResponse) (b : ResponseBody) : RawResponse :=
  {| StatusCode := StatusCode r; ContentEncoding := ContentEncoding r;
     RespContentLength := RespContentLength r; RespBody := b |}.

Definition is_some {A} (o : option A) : bool :=
  match o with Some _ => true | None => false end.

Section Pipeline.

Context {W : Type} {host : Host W}.

Local Open Scope pipe_scope.

(** What [Client.do] makes of the transport's result: the transparent
    gzip reader is put over a compressed body that has none yet. *)
Definition do_result (res : DoResult) : option RawResponse * option error :=
  match res with
  | DoErr resp e => (resp, Some e)
  | DoOk resp =>
      if EqualFold (ContentEncoding resp) "gzip"
         && negb (RespContentLength resp =? 0)
      then
        match RespBody resp with
        | GzipBody _ => (Some resp, None)
        | WireBody bs =>
            match gzip_NewReader_err bs with
            | None => (Some (set_RespBody resp (GzipBody (Some bs))), None)
            | Some e => (Some (set_RespBody resp (GzipBody None)), Some e)
            end
        end
      else (Some resp, None)
  end.

(** [Client.do]: one transport attempt. *)
Definition do (c : Client W) (req : Request)
  : M W (option RawResponse * option error) :=
  res <- lift (http_Do c req) ;;
  _ <- emit (EvAttempt req res) ;;
  ret (do_result res).

(** [Client.onBeforeRequest]: the hooks in order, up to the first error. *)
Fixpoint onBeforeRequest_loop (hooks : list BeforeRequestHook) (req : Request)
  : Request * option error :=
  match hooks with
  | [] => (req, None)
  | hook :: rest =>
      match hook req with
      | (req', Some e) => (req', Some e)
      | (req', None) => onBeforeRequest_loop rest req'
      end
  end.

Definition onBeforeRequest (c : Client W) (req : Request) : Request * option error :=
  onBeforeRequest_loop (beforeRequestHooks c) req.

(** [Client.onAfterResponse]: nothing on an errored response; otherwise
    the hooks in order, the first error going into the error slot. *)
Fixpoint onAfterResponse_loop (hooks : list AfterResponseHook) (resp : Response)
  : Response :=
  match hooks with
  | [] => resp
  | hook :: rest =>
      match hook resp with
      | (resp', Some e) => set_err resp' (Some e)
      | (resp', None) => onAfterResponse_loop rest resp'
      end
  end.

Definition onAfterResponse (c : Client W) (resp : Response) : Response :=
  match err resp with
  | Some _ => resp
  | None => onAfterResponse_loop (afterResponseHooks c) resp
  end.

(** The [for] loop of [doWithRetry], from attempt index [i]; [fuel]
    bounds the iterations left and [r] is [req.retrier]. *)
Fixpoint retryLoop (fuel : nat) (c : Client W) (r : Retrier) (i : Z)
  (req : Request) (resp : Response) : M W (Request * Response) :=
  match fuel with
  | O => ret (req, resp)
  | S fuel' =>
      if i <? maxAttempts r then
        '(raw, e) <- do c req ;;
        let resp := set_result resp raw e in
        cerr <- peek (ctx_Err (ctx req)) ;;
        if is_some cerr || (maxAttempts r - 1 <=? i) || negb (on r resp)
        then ret (req, resp)
        else
          let req :=
            match GetBody req with
            | Some g => set_Body req (fst (g tt))
            | None => req
            end in
          match backoff r with
          | None => panic
          | Some b =>
              u <- peek rand_source ;;
              match WaitTime b i resp u with
              | None => panic
              | Some d =>
                  fired <- lift (after_or_done d (ctx req)) ;;
                  if fired : bool then
                    _ <- emit (EvSleep d) ;;
                    retryLoop fuel' c r (i + 1) req resp
                  else
                    cerr <- peek (ctx_Err (ctx req)) ;;
                    _ <- emit (EvCtxDone cerr) ;;
                    ret (req, set_err resp cerr)
              end
          end
      else ret (req, resp)
  end.

(** The admission step of [doWithRetry]; [Some e] ends the pipeline. *)
Definition admission (c : Client W) (req : Request) : M W (option error) :=
  match limiter c with
  | None => ret None
  | Some l =>
      if negb (Allow l req) then
        e <- lift (Wait l (ctx req)) ;;
        _ <- emit (EvLimiterWait e) ;;
        ret e
      else ret None
  end.

(** Admission, then the loop. *)
Definition admissionAndLoop (c : Client W) (r : Retrier) (req : Request) (resp : Response)
  : M W (Request * Response) :=
  e <- admission c req ;;
  match e with
  | Some e => ret (req, set_err resp (Some e))
  | None => retryLoop (Z.to_nat (maxAttempts r)) c r 0 req resp
  end.

(** [Client.doWithRetry]; the request and the response are updated in
    place in the source and returned here. *)
Definition doWithRetry (c : Client W) (req : Request) (resp : Response)
  : M W (Request * Response) :=
  match retrier req with
  | None => admissionAndLoop c noRetry (SetRetry req (Some noRetry)) resp
  | Some r =>
      match 1 <? maxAttempts r, Body req, GetBody req with
      | true, Some b, None =>
          match drainBody b with
          | (_, Some e) => ret (req, set_err resp (Some e))
          | (body, None) =>
              admissionAndLoop c r (SetBody req (Some (BytesBuffer body))) resp
          end
      | _, _, _ => admissionAndLoop c r req resp
      end
  end.

(** [Client.Do]. *)
Definition Do (c : Client W) (req : Request) : M W Response :=
  match onBeforeRequest c req with
  | (_, Some e) => ret (set_err newResponse (Some e))
  | (req', None) =>
      '(_, resp) <- doWithRetry c req' newResponse ;;
      ret (onAfterResponse c resp)
  end.

(** [NewRequest] of request.go. *)
Fixpoint apply_options (opts : list RequestOption) (req : Request)
  : Request * option error :=
  match opts with
  | [] => (req, None)
  | opt :: rest =>
      match opt req with
      | (req', Some e) => (req', Some e)
      | (req', None) => apply_options rest req'
      end
  end.

Definition NewRequest (method url : string) (opts : list RequestOption)
  : option Request * option error :=
  match http_NewRequest_err method url with
  | Some e => (None, Some (wrapError "http.NewRequest" e))
  | None =>
      let req := {| Method := method; URL := url; Body := None; GetBody := None;
                    ContentLength := 0; ctx := context_Background;
                    retrier := None |} in
      let (req', e) := apply_options opts req in
      (Some req', e)
  end.

(** [Client.Send]. *)
Definition Send (c : Client W) (method url : string) (opts : list RequestOption)
  : M W Response :=
  match NewRequest method url opts with
  | (_, Some e) => ret (set_err newResponse (Some e))
  | (Some req, None) => Do c req
  | (None, None) => panic
  end.

(** The method helpers; [GlobalClient] is the package-level variable. *)
Variable GlobalClient : Client W.

Definition Get (c : Client W) (url : string) (opts : list RequestOption) : M W Response :=
  Send c "GET" url opts.

Definition Head (c : Client W) (url : string) (opts : list RequestOption) : M W Response :=
  Send c "HEAD" url opts.

Definition Post (c : Client W) (url : string) (opts : list RequestOption) : M W Response :=
  Send c "POST" url opts.

Definition Put (c : Client W) (url : string) (opts : list RequestOption) : M W Response :=
  Send GlobalClient "PUT" url opts.

Definition Patch (c : Client W) (url : string) (opts : list RequestOption) : M W Response :=
  Send c "PATCH" url opts.

Definition Delete (c : Client W) (url : string) (opts : list RequestOption) : M W Response :=
  Send c "DELETE" url opts.

End Pipeline.

(** The transport attempts recorded in a log. *)
Definition is_attempt (e : event) : bool :=
  match e with EvAttempt _ _ => true | _ => false end.

Definition attempts (l : list event) : nat :=
  List.length (List.filter is_attempt l).

(** The request of the first transport attempt in a log, if there is one. *)
Fixpoint first_attempt (l : list event) : option Request :=
  match l with
  | [] => None
  | EvAttempt req _ :: _ => Some req
  | _ :: rest => first_attempt rest
  end.

Definition is_ctx_done (e : event) : bool :=
  match e with EvCtxDone _ => true | _ => false end.

(** ** A simulated world, for running the pipeline on concrete inputs

    The state of the world is the clock.  A context handle [c > 0] is
    cancelled from time [c] on; other handles never are.  A sleep of [d]
    that would run past the cancellation time is cut short there. *)

Definition sim_ctx_Err (c : Context) (now : Z) : option error :=
  if (0 <? c) && (c <=? now) then Some "context canceled"%string else None.

Definition sim_after_or_done (d : Z) (c : Context) (now : Z) : bool * Z :=
  if (0 <? c) && (c <=? now + d) then (false, Z.max now c) else (true, now + d).

Definition sim_host : Host Z :=
  {| ctx_Err := sim_ctx_Err;
     after_or_done := sim_after_or_done;
     rand_source := fun now => now;
     gzip_NewReader_err := fun _ => None;
     http_NewRequest_err := fun _ _ => None |}.

(** A transport that takes one tick and always answers 503. *)
Definition sim_unavailable : RawResponse :=
  {| StatusCode := 503; ContentEncoding := ""; RespContentLength := 0;
     RespBody := WireBody [] |}.

Definition sim_client : Client Z :=
  {| http_Do := fun _ now => (DoOk sim_unavailable, now + 1);
     limiter := None;
     beforeRequestHooks := [];
     afterResponseHooks := [] |}.

(** A client whose first pre-request hook refuses every request. *)
Definition sim_refusing_client : Client Z :=
  {| http_Do := fun _ now => (DoOk sim_unavailable, now + 1);
     limiter := None;
     beforeRequestHooks := [fun req => (req, Some "refused"%string)];
     afterResponseHooks := [] |}.

Definition sim_always : Response -> bool := fun _ => true.

Definition sim_retrier (n : Z) : Retrier :=
  NewRetrier n (Some (NewConstantBackoff 10 false)) [sim_always].

Definition sim_request (c : Context) (body : option ReadCloser) (r : option Retrier)
  : Request :=
  {| Method := "POST"; URL := "http://example.test/"; Body := body; GetBody := None;
     ContentLength := 0; ctx := c; retrier := r |}.

Definition sim_start : State Z := {| world := 0; log := [] |}.

(** ** Predicates of the statements and proofs *)

(** The sign of a rounded result is the one asked for. *)
Definition has_sign (s : bool) (f : float64) : Prop :=
  match f with
  | S754_zero s' | S754_infinity s' | S754_finite s' _ _ => s' = s
  | S754_nan => False
  end.

(** [is_norm f v]: [f] is the positive normal float whose value is the
    integer [v]. *)
Definition is_norm (f : float64) (v : Z) : Prop :=
  exists q e,
    f = S754_finite false q e
    /\ Zpos (digits2_pos q) = 53
    /\ -52 <= e <= 971
    /\ Zpos q * 2 ^ (e + 52) = v * 2 ^ 52.

(** The power of two [2^i] as a float. *)
Definition f64_pow2 (i : Z) : float64 := S754_finite false 4503599627370496 (i - 52).

(** Floats that are not above zero (a NaN counts). *)
Definition nonpos (f : float64) : Prop :=
  match f with
  | S754_nan => True
  | S754_zero _ => True
  | S754_infinity s => s = true
  | S754_finite s _ _ => s = true
  end.

(** Positive floats as rounding leaves them: an overflow, or a normal
    mantissa with an exponent of at least [lo]. *)
Definition pos_from (lo : Z) (f : float64) : Prop :=
  f = S754_infinity false
  \/ exists m e, f = S754_finite false m e /\ Zpos (digits2_pos m) = 53 /\ lo <= e.

(** Floats whose half truncates to nothing positive. *)
Definition low (f : float64) : Prop := nonpos f \/ f = f64_one.

(** Logs in which no wait was cut short by the context. *)
Definition no_ctx_done (l : list event) : Prop :=
  forall e, In e l -> is_ctx_done e = false.

(** ** Further definitions: logs *)

(** The retrier the loop runs with: [noRetry] stands in for a nil one. *)
Definition effective_retrier (req : Request) : Retrier :=
  match retrier req with
  | Some r => r
  | None => noRetry
  end.

(** The completed backoff waits of a log, in order. *)
Fixpoint sleeps (l : list event) : list Z :=
  match l with
  | [] => []
  | EvSleep d :: rest => d :: sleeps rest
  | _ :: rest => sleeps rest
  end.


(** The events one run of the loop can leave: attempts separated by one
    completed wait each, the last attempt possibly followed by the
    context cutting the wait short. *)
Inductive loop_trace : list event -> Prop :=
| loop_trace_nil : loop_trace []
| loop_trace_last (req : Request) (res : DoResult) :
    loop_trace [EvAttempt req res]
| loop_trace_done (req : Request) (res : DoResult) (e : option error) :
    loop_trace [EvAttempt req res; EvCtxDone e]
| loop_trace_step (req : Request) (res : DoResult) (d : Z) (rest : list event) :
    loop_trace rest -> rest <> [] ->
    loop_trace (EvAttempt req res :: EvSleep d :: rest).

(** What a body yields when read to its end, for an optional body. *)
Definition body_bytes (b : option ReadCloser) : list Byte.byte * option error :=
  match b with
  | Some rc => read_all rc
  | None => ([], None)
  end.

(** The integers [lo, lo+1, ...], [n] of them. *)
Fixpoint Zrange (lo : Z) (n : nat) : list Z :=
  match n with
  | O => []
  | S n' => lo :: Zrange (lo + 1) n'
  end.

(** ** Further definitions: configuring the client *)

(** [Client.UseRateLimiter]. *)
Definition UseRateLimiter {W : Type} (c : Client W) (l : option (Limiter W)) : Client W :=
  {| http_Do := http_Do c; limiter := l;
     beforeRequestHooks := beforeRequestHooks c;
     afterResponseHooks := afterResponseHooks c |}.

(** [Client.OnBeforeRequest]: the hooks are appended to the chain. *)
Definition OnBeforeRequest {W : Type} (c : Client W) (hooks : list BeforeRequestHook)
  : Client W :=
  {| http_Do := http_Do c; limiter := limiter c;
     beforeRequestHooks := beforeRequestHooks c ++ hooks;
     afterResponseHooks := afterResponseHooks c |}.


(** ** Further definitions: rate.go *)

(** The [for ... range rl.urlPatterns] loop of [regexpLimiter.Allow]; a
    pattern is its [MatchString]. *)
Fixpoint regexpLimiter_Allow_loop (patterns : list (string -> bool)) (url : string)
  : bool :=
  match patterns with
  | [] => true
  | pattern :: rest =>
      if pattern url then false else regexpLimiter_Allow_loop rest url
  end.

(** [regexpLimiter.Allow]. *)
Definition regexpLimiter_Allow (urlPatterns : list (string -> bool)) (req : Request)
  : bool :=
  if Z.of_nat (List.length urlPatterns) =? 0 then false
  else regexpLimiter_Allow_loop urlPatterns (URL req).

(** [NewRegexpLimiter]; [rateLimiter_Wait] is the [Wait] of the
    [*rate.Limiter] it wraps. *)
Definition NewRegexpLimiter {W : Type}
  (rateLimiter_Wait : Context -> W -> option error * W)
  (urlPatterns : list (string -> bool)) : Limiter W :=
  {| Allow := regexpLimiter_Allow urlPatterns; Wait := rateLimiter_Wait |}.

(** The unread bytes of a reader that holds its contents in memory. *)
Definition in_memory (v : Reader) : option (list Byte.byte) :=
  match v with
  | BytesBuffer buf | BytesReader buf | StringsReader buf => Some buf
  | OtherReader _ => None
  end.

(** ** Further definitions: response.go *)

(** A step that may panic, run inside the pipeline. *)
Definition of_outcome {W A : Type} (o : outcome A) : M W A := fun s => (o, s).

Section Responses.

(** [Status r] is the [Status] field of the raw response, the text of
    its status line. *)
Variable Status : RawResponse -> string.

(** [fmt.Errorf("ghttp: bad status (%s)", resp.Status)]. *)
Definition bad_status (r : RawResponse) : error :=
  ("ghttp: bad status (" ++ Status r ++ ")")%string.

(** [Response.EnsureStatus]; reading [StatusCode] through a nil raw
    response panics. *)
Definition EnsureStatus (resp : Response) (code : Z) : outcome Response :=
  match err resp with
  | Some _ => Ok resp
  | None =>
      match Raw resp with
      | None => Panicked
      | Some r =>
          if negb (StatusCode r =? code)
          then Ok (set_err resp (Some (bad_status r)))
          else Ok resp
      end
  end.

(** [Response.EnsureStatus2xx]; [/] on Go's integers truncates. *)
Definition EnsureStatus2xx (resp : Response) : outcome Response :=
  match err resp with
  | Some _ => Ok resp
  | None =>
      match Raw resp with
      | None => Panicked
      | Some r =>
          if negb (Z.quot (StatusCode r) 100 =? 2)
          then Ok (set_err resp (Some (bad_status r)))
          else Ok resp
      end
  end.

(** [Response.EnsureStatusOk]. *)
Definition EnsureStatusOk (resp : Response) : outcome Response :=
  EnsureStatus resp 200.

End Responses.

(** [Response.Prefetch]; [ReadAll] is [ioutil.ReadAll] on the body as it
    stands when called, whose slice is never nil. *)
Definition Prefetch (ReadAll : ResponseBody -> list Byte.byte * option error)
  (resp : Response) : outcome Response :=
  if is_some (err resp) || is_some (content resp) then Ok resp
  else
    match Raw resp with
    | None => Panicked
    | Some r =>
        let (b, e) := ReadAll (RespBody r) in
        Ok {| Raw := Raw resp; content := Some b; err := e |}
    end.

(** [Response.Content]. *)
Definition Content (ReadAll : ResponseBody -> list Byte.byte * option error)
  (resp : Response) : outcome (option (list Byte.byte) * option error) :=
  if is_some (err resp) || is_some (content resp) then Ok (content resp, err resp)
  else
    match Raw resp with
    | None => Panicked
    | Some r =>
        let (b, e) := ReadAll (RespBody r) in
        Ok (Some b, e)
    end.

(** An [http.Cookie], as far as the lookups read it. *)
Record Cookie := {
  Name : string;
  Value : string
}.

Definition ErrNilCookieJar : error := "ghttp: nil cookie jar"%string.
Definition ErrNoCookie : error := "ghttp: named cookie not present"%string.

(** The [for ... range cookies] loop of [Response.Cookie] and of
    [Client.FilterCookie]. *)
Fixpoint named_cookie (cookies : list Cookie) (name : string)
  : option Cookie * option error :=
  match cookies with
  | [] => (None, Some ErrNoCookie)
  | c :: rest =>
      if String.eqb (Name c) name then (Some c, None) else named_cookie rest name
  end.

(** [Response.Cookies]; [cookies_of r] is [r.Cookies()], the cookies of
    the [Set-Cookie] headers. *)
Definition Response_Cookies (cookies_of : RawResponse -> list Cookie) (resp : Response)
  : outcome (list Cookie * option error) :=
  match err resp with
  | Some e => Ok ([], Some e)
  | None =>
      match Raw resp with
      | None => Panicked
      | Some r => Ok (cookies_of r, None)
      end
  end.

(** [Response.Cookie]. *)
Definition Response_Cookie (cookies_of : RawResponse -> list Cookie) (resp : Response)
  (name : string) : outcome (option Cookie * option error) :=
  match Response_Cookies cookies_of resp with
  | Panicked => Panicked
  | Ok (_, Some e) => Ok (None, Some e)
  | Ok (cookies, None) => Ok (named_cookie cookies name)
  end.

(** [Client.FilterCookies]; [jar] is the client's cookie jar ([None] is
    nil), given as its [Cookies] method on the text of a URL, and
    [url_Parse_err] is the error of [url.Parse]. *)
Definition FilterCookies (jar : option (string -> list Cookie))
  (url_Parse_err : string -> option error) (url : string)
  : list Cookie * option error :=
  match jar with
  | None => ([], Some ErrNilCookieJar)
  | Some cookies =>
      match url_Parse_err url with
      | Some e => ([], Some e)
      | None => (cookies url, None)
      end
  end.

(** [Client.FilterCookie]. *)
Definition FilterCookie (jar : option (string -> list Cookie))
  (url_Parse_err : string -> option error) (url : string) (name : string)
  : option Cookie * option error :=
  match FilterCookies jar url_Parse_err url with
  | (_, Some e) => (None, Some e)
  | (cookies, None) => named_cookie cookies name
  end.

(** ** Further definitions: curl.go *)

(** [bashEscaper.Replace]: every single quote becomes the four bytes that
    close the quoting, add an escaped quote and open the quoting again. *)
Fixpoint bashEscaper_Replace (s : string) : string :=
  match s with
  | EmptyString => EmptyString
  | String c rest =>
      if Ascii.eqb c "'"%char
      then ("'\''" ++ bashEscaper_Replace rest)%string
      else String c (bashEscaper_Replace rest)
  end.

Definition bashEscape (s : string) : string :=
  ("'" ++ bashEscaper_Replace s ++ "'")%string.

(** ** Further definitions: ghttp.go *)

(** A value of a [Values] map by what [translate] makes of it: a
    [[]string], a value that [toString] formats (to [s]), or a value of
    a type that [toString] panics on. *)
Inductive value :=
| StringSlice (vs : list string)
| Scalar (s : string)
| Unexpected.

(** [translate]: the panic of [toString] is recovered and leaves [nil]. *)
Definition translate (v : value) : list string :=
  match v with
  | StringSlice vs => vs
  | Scalar s => [s]
  | Unexpected => []
  end.

(** A [Values] map, as the list of its entries; the keys are distinct. *)
Definition Values : Type := list (string * value).

(** [Values.Decode]. *)
Fixpoint Values_Decode (v : Values) : list (string * list string) :=
  match v with
  | [] => []
  | (key, val) :: rest =>
      let vs := translate val in
      if (0 <? List.length vs)%nat then (key, vs) :: Values_Decode rest
      else Values_Decode rest
  end.

(** [vv[k]] on a map of string lists: [nil] for a key that is not there. *)
Fixpoint map_get (vv : list (string * list string)) (k : string) : list string :=
  match vv with
  | [] => []
  | (k', vs) :: rest => if String.eqb k' k then vs else map_get rest k
  end.

(** [sort.Strings]: the keys in increasing byte-wise order. *)
Fixpoint insert_sorted (k : string) (l : list string) : list string :=
  match l with
  | [] => [k]
  | x :: rest => if String.leb k x then k :: l else x :: insert_sorted k rest
  end.

Definition sort_Strings (l : list string) : list string :=
  fold_right insert_sorted [] l.

(** The inner loop of [Values.URLEncode] over the values of one key; the
    key [k] is the variable the loop assigns to. *)
Fixpoint URLEncode_values (QueryEscape : string -> string) (escaped : bool)
  (k : string) (vs : list string) (sb : string) : string :=
  match vs with
  | [] => sb
  | v :: rest =>
      let sb := if (0 <? String.length sb)%nat then (sb ++ "&")%string else sb in
      let k := if escaped then QueryEscape k else k in
      let v := if escaped then QueryEscape v else v in
      URLEncode_values QueryEscape escaped k rest (sb ++ k ++ "=" ++ v)%string
  end.

(** The outer loop of [Values.URLEncode] over the sorted keys. *)
Fixpoint URLEncode_keys (QueryEscape : string -> string) (escaped : bool)
  (vv : list (string * list string)) (keys : list string) (sb : string) : string :=
  match keys with
  | [] => sb
  | k :: rest =>
      URLEncode_keys QueryEscape escaped vv rest
        (URLEncode_values QueryEscape escaped k (map_get vv k) sb)
  end.

(** [Values.URLEncode]; [QueryEscape] is [url.QueryEscape]. *)
Definition Values_URLEncode (QueryEscape : string -> string) (v : Values)
  (escaped : bool) : string :=
  URLEncode_keys QueryEscape escaped (Values_Decode v)
    (sort_Strings (List.map fst v)) EmptyString.

(** ** Further definitions: the buffer pool (util.go) *)

(** The byte arrays allocated so far, by address; the length of an array
    is its capacity. *)
Definition Memory : Type := list (list Byte.byte).

(** A [[]byte]: a window on an array ([None] is the nil slice). *)
Record Slice := {
  s_array : option nat;
  s_off : nat;
  s_len : nat
}.

(** A [bytes.Buffer] that is only written to and reset: its backing
    array ([None] before the first write) and the number of bytes held. *)
Record Buffer := {
  buf_array : option nat;
  buf_len : nat
}.

Definition array_at (m : Memory) (a : option nat) : list Byte.byte :=
  match a with
  | Some a => nth a m []
  | None => []
  end.

(** The bytes a slice shows, in the memory as it is now. *)
Definition read_slice (m : Memory) (s : Slice) : list Byte.byte :=
  firstn (s_len s) (skipn (s_off s) (array_at m (s_array s))).

Fixpoint set_array (m : Memory) (a : nat) (arr : list Byte.byte) : Memory :=
  match m, a with
  | [], _ => []
  | _ :: rest, O => arr :: rest
  | x :: rest, S a' => x :: set_array rest a' arr
  end.

(** [copy(arr[i:], p)] for a [p] that fits. *)
Definition copy_at (arr : list Byte.byte) (i : nat) (p : list Byte.byte)
  : list Byte.byte :=
  firstn i arr ++ p ++ skipn (i + List.length p) arr.

(** [Buffer.Write]: the bytes go into the backing array when its capacity
    allows, and into a new, larger array otherwise; [grow n] is the
    capacity the allocator gives beyond the [n] bytes needed. *)
Definition Buffer_Write (grow : nat -> nat) (m : Memory) (b : Buffer)
  (p : list Byte.byte) : Memory * Buffer :=
  let arr := array_at m (buf_array b) in
  if (List.length p <=? List.length arr - buf_len b)%nat then
    match buf_array b with
    | Some a =>
        (set_array m a (copy_at arr (buf_len b) p),
         {| buf_array := Some a; buf_len := buf_len b + List.length p |})
    | None => (m, b)
    end
  else
    let n := (buf_len b + List.length p)%nat in
    (m ++ [firstn (buf_len b) arr ++ p ++ repeat Byte.x00 (grow n)],
     {| buf_array := Some (List.length m); buf_len := n |}).

(** [Buffer.Bytes]. *)
Definition Buffer_Bytes (b : Buffer) : Slice :=
  {| s_array := buf_array b; s_off := 0; s_len := buf_len b |}.

(** [Buffer.Reset] keeps the backing array. *)
Definition Buffer_Reset (b : Buffer) : Buffer :=
  {| buf_array := buf_array b; buf_len := 0 |}.

Definition newline : Byte.byte := Byte.x0a.

(** [bytes.TrimSuffix(s, jsonSuffix)]. *)
Definition TrimSuffix_jsonSuffix (m : Memory) (s : Slice) : Slice :=
  match rev (read_slice m s) with
  | x :: _ =>
      if Byte.eqb x newline
      then {| s_array := s_array s; s_off := s_off s; s_len := s_len s - 1 |}
      else s
  | [] => s
  end.

(** The memory and [bufPool]. *)
Record PoolState := {
  memory : Memory;
  bufPool : list Buffer
}.

Fixpoint remove_nth {A : Type} (i : nat) (l : list A) : list A :=
  match l, i with
  | [], _ => []
  | _ :: rest, O => rest
  | x :: rest, S i' => x :: remove_nth i' rest
  end.

(** [acquireBuffer]: [sync.Pool.Get] hands out an item of its choosing
    or a new buffer; [choice] is that choice. *)
Definition acquireBuffer (choice : option nat) (st : PoolState) : Buffer * PoolState :=
  let fresh := {| buf_array := None; buf_len := 0 |} in
  match choice with
  | None => (fresh, st)
  | Some i =>
      match nth_error (bufPool st) i with
      | Some b => (b, {| memory := memory st; bufPool := remove_nth i (bufPool st) |})
      | None => (fresh, st)
      end
  end.

(** [releaseBuffer]. *)
Definition releaseBuffer (buf : Buffer) (st : PoolState) : PoolState :=
  {| memory := memory st; bufPool := Buffer_Reset buf :: bufPool st |}.

(** [jsonMarshal]; [encoded] is what the encoder makes of the value: the
    text it writes, followed by a newline, in one [Write], or the error it
    returns without writing. *)
Definition jsonMarshal (grow : nat -> nat) (choice : option nat)
  (encoded : list Byte.byte + error) (st : PoolState)
  : (Slice * option error) * PoolState :=
  let (buf, st) := acquireBuffer choice st in
  let '(m, buf, e) :=
    match encoded with
    | inl text =>
        let (m, buf) := Buffer_Write grow (memory st) buf (text ++ [newline]) in
        (m, buf, None)
    | inr e => (memory st, buf, Some e)
    end in
  let result := TrimSuffix_jsonSuffix m (Buffer_Bytes buf) in
  (result, e, releaseBuffer buf {| memory := m; bufPool := bufPool st |}).

(** ** More of the simulated world *)



(** A transport that takes one tick and fails. *)
Definition sim_broken_client : Client Z :=
  {| http_Do := fun _ now => (DoErr None "connection refused"%string, now + 1);
     limiter := None;
     beforeRequestHooks := [];
     afterResponseHooks := [] |}.




Definition sim_failing_option : RequestOption :=
  fun req => (req, Some "bad option"%string).

(** A compressed answer, as the transport delivers it. *)
Definition sim_compressed : RawResponse :=
  {| StatusCode := 200; ContentEncoding := "GZIP"; RespContentLength := 3;
     RespBody := WireBody [Byte.x1f; Byte.x8b; Byte.x08] |}.

Definition sim_Status (r : RawResponse) : string :=
  if StatusCode r =? 200 then "200 OK"%string else "503 Service Unavailable"%string.

Definition sim_ReadAll (b : ResponseBody) : list Byte.byte * option error :=
  match b with
  | WireBody bs => (bs, None)
  | GzipBody (Some bs) => (bs, None)
  | GzipBody None => ([], Some "gzip: invalid header"%string)
  end.

Definition sim_cookies (r : RawResponse) : list Cookie :=
  [ {| Name := "lang"; Value := "en" |};
    {| Name := "sid"; Value := "1" |};
    {| Name := "sid"; Value := "2" |} ].

(* ================================================================= *)
(** * Part II: properties *)
(* ================================================================= *)

(** ** The retry decision *)

Lemma on_loop_true_iff (ts : list (Response -> bool)) (resp : Response) :
  on_loop ts resp = true <-> exists t, In t ts /\ t resp = true.
Proof.
  induction ts as [|t ts IH]; simpl.
  - split; [discriminate | intros (t & [] & _)].
  - destruct (t resp) eqn:Ht.
    + split; [intros _; exists t; auto | reflexivity].
    + rewrite IH. split.
      * intros (t' & Hin & Ht'). exists t'; auto.
      * intros (t' & [<- | Hin] & Ht'); [congruence | exists t'; auto].
Qed.

Lemma on_loop_first_match (ts : list (Response -> bool)) (resp : Response) :
  on_loop ts resp = true ->
  exists pre t post,
    ts = pre ++ t :: post /\ t resp = true /\ forall t', In t' pre -> t' resp = false.
Proof.
  induction ts as [|t ts IH]; simpl; [discriminate|].
  destruct (t resp) eqn:Ht.
  - intros _. exists [], t, ts. repeat split; auto. intros t' [].
  - intros H. destruct (IH H) as (pre & t1 & post & -> & Ht1 & Hpre).
    exists (t :: pre), t1, post. repeat split; auto.
    intros t' [<- | Hin]; auto.
Qed.

Lemma on_eq_on_loop (r : Retrier) (resp : Response) :
  on r resp = on_loop (triggers r) resp.
Proof.
  unfold on. destruct (triggers r); reflexivity.
Qed.

(** C4.  [Retrier.on] answers [true] exactly when the trigger list is not
    empty and some trigger accepts the response; the trigger that decides
    is the first one, in registration order, that accepts; and a retrier
    without triggers never retries, whatever the response carries. *)
Theorem on_true_iff_some_trigger (r : Retrier) (resp : Response) :
  (on r resp = true <->
     triggers r <> [] /\ exists t, In t (triggers r) /\ t resp = true)
  /\ (on r resp = true ->
        exists pre t post,
          triggers r = pre ++ t :: post /\ t resp = true
          /\ forall t', In t' pre -> t' resp = false)
  /\ (triggers r = [] -> forall resp', on r resp' = false).
Proof.
  split; [|split].
  - rewrite on_eq_on_loop, on_loop_true_iff. split.
    + intros (t & Hin & Ht). split; [|exists t; auto].
      intros E. rewrite E in Hin. destruct Hin.
    + intros (_ & H). exact H.
  - rewrite on_eq_on_loop. apply on_loop_first_match.
  - intros E resp'. rewrite on_eq_on_loop, E. reflexivity.
Qed.

(** ** The method helpers *)

Section Helpers.

Context {W : Type} {host : Host W}.

(** C8.  [Put] sends through the package-level client whatever its
    receiver is, so its result does not depend on the receiver, while
    [Get], [Head], [Post], [Patch] and [Delete] send through theirs. *)
Theorem Put_sends_through_GlobalClient
  (GlobalClient c : Client W) (url : string) (opts : list RequestOption) :
  Put GlobalClient c url opts = Send GlobalClient "PUT" url opts
  /\ (forall c' : Client W, Put GlobalClient c url opts = Put GlobalClient c' url opts)
  /\ Get c url opts = Send c "GET" url opts
  /\ Head c url opts = Send c "HEAD" url opts
  /\ Post c url opts = Send c "POST" url opts
  /\ Patch c url opts = Send c "PATCH" url opts
  /\ Delete c url opts = Send c "DELETE" url opts.
Proof.
  repeat split.
Qed.

End Helpers.

(** The receiver does matter for [Get] and does not for [Put]: with a
    package-level client that lets requests through and a receiver whose
    hook refuses them, [Get] is refused while [Put] reaches the network. *)
Example Get_refused_Put_sent :
  let get := @Get Z sim_host sim_refusing_client "http://example.test/" [] sim_start in
  let put := @Put Z sim_host sim_client sim_refusing_client "http://example.test/" []
               sim_start in
  attempts (log (snd get)) = 0%nat /\ attempts (log (snd put)) = 1%nat.
Proof.
  split; reflexivity.
Qed.

(** ** The execution loop *)

Lemma attempts_app (l1 l2 : list event) :
  attempts (l1 ++ l2) = (attempts l1 + attempts l2)%nat.
Proof.
  unfold attempts. rewrite filter_app, length_app. reflexivity.
Qed.

Section Loop.

Context {W : Type} {host : Host W}.

Lemma do_spec (c : Client W) (req : Request) (s : State W) :
  do c req s =
    (Ok (do_result (fst (http_Do c req (world s)))),
     {| world := snd (http_Do c req (world s));
        log := log s ++ [EvAttempt req (fst (http_Do c req (world s)))] |}).
Proof.
  unfold do, bind, lift, emit, ret.
  destruct (http_Do c req (world s)); reflexivity.
Qed.

(** One iteration of the loop, as the source reads. *)
Lemma retryLoop_step (fuel : nat) (c : Client W) (r : Retrier) (i : Z)
  (req : Request) (resp : Response) (s : State W) :
  i < maxAttempts r ->
  let res := fst (http_Do c req (world s)) in
  let s1 := {| world := snd (http_Do c req (world s));
               log := log s ++ [EvAttempt req res] |} in
  let resp1 := set_result resp (fst (do_result res)) (snd (do_result res)) in
  let req1 := match GetBody req with
              | Some g => set_Body req (fst (g tt))
              | None => req
              end in
  retryLoop (S fuel) c r i req resp s =
    if is_some (ctx_Err (ctx req) (world s1)) || (maxAttempts r - 1 <=? i)
       || negb (on r resp1)
    then (Ok (req, resp1), s1)
    else match backoff r with
         | None => (Panicked, s1)
         | Some b =>
             match WaitTime b i resp1 (rand_source (world s1)) with
             | None => (Panicked, s1)
             | Some d =>
                 let '(fired, w2) := after_or_done d (ctx req1) (world s1) in
                 if fired
                 then retryLoop fuel c r (i + 1) req1 resp1
                        {| world := w2; log := log s1 ++ [EvSleep d] |}
                 else (Ok (req1, set_err resp1 (ctx_Err (ctx req1) w2)),
                       {| world := w2;
                          log := log s1 ++ [EvCtxDone (ctx_Err (ctx req1) w2)] |})
             end
         end.
Proof.
  intros Hi res s1 resp1 req1.
  apply Z.ltb_lt in Hi.
  cbn [retryLoop]. rewrite Hi.
  unfold bind at 1. rewrite do_spec.
  fold res. fold s1.
  destruct (do_result res) as [raw e] eqn:Hres.
  cbn [fst snd] in resp1. fold resp1.
  unfold bind at 1, peek at 1.
  destruct (is_some (ctx_Err (ctx req) (world s1)) || (maxAttempts r - 1 <=? i)
            || negb (on r resp1)); [reflexivity|].
  fold req1.
  destruct (backoff r) as [b|]; [|reflexivity].
  unfold bind at 1, peek at 1.
  destruct (WaitTime b i resp1 (rand_source (world s1))) as [d|]; [|reflexivity].
  unfold bind at 1, lift at 1.
  destruct (after_or_done d (ctx req1) (world s1)) as [[|] w2]; reflexivity.
Qed.

Lemma ctx_set_Body (req : Request) (b : option ReadCloser) :
  ctx (set_Body req b) = ctx req.
Proof. reflexivity. Qed.

Lemma ctx_after_GetBody (req : Request) :
  ctx (match GetBody req with
       | Some g => set_Body req (fst (g tt))
       | None => req
       end) = ctx req.
Proof. destruct (GetBody req); reflexivity. Qed.

Lemma retryLoop_all_attempts (c : Client W) (N : Z) (b : option Backoff)
  (t : Response -> bool) (cx : Context) :
  (forall r, t r = true) ->
  (forall w, ctx_Err cx w = None) ->
  (forall d w, fst (after_or_done d cx w) = true) ->
  (1 < N -> exists bk, b = Some bk
                       /\ forall i r u, 0 <= i < N - 1 -> WaitTime bk i r u <> None) ->
  forall (fuel : nat) (i : Z) (req : Request) (resp : Response) (s : State W),
    0 <= i < N -> fuel = Z.to_nat (N - i) -> ctx req = cx ->
    exists req' resp' s' evs lastreq res,
      retryLoop fuel c (NewRetrier N b [t]) i req resp s = (Ok (req', resp'), s')
      /\ log s' = log s ++ evs ++ [EvAttempt lastreq res]
      /\ Z.of_nat (attempts (evs ++ [EvAttempt lastreq res])) = N - i
      /\ (Raw resp', err resp') = do_result res.
Proof.
  intros Ht Hctx Hsel Hbk.
  induction fuel as [|fuel IH]; intros i req resp s Hi Hfuel Hcx; [lia|].
  rewrite retryLoop_step by (cbn [maxAttempts NewRetrier]; lia).
  cbn zeta. cbn [maxAttempts NewRetrier backoff world log].
  rewrite Hcx, Hctx. cbn [is_some orb].
  set (res := fst (http_Do c req (world s))).
  set (resp1 := set_result resp (fst (do_result res)) (snd (do_result res))).
  destruct (N - 1 <=? i) eqn:Hlast.
  - apply Z.leb_le in Hlast. cbn [orb].
    exists req, resp1, {| world := snd (http_Do c req (world s));
                          log := log s ++ [EvAttempt req res] |}, [], req, res.
    repeat split.
    + cbn. lia.
    + unfold resp1. cbn. destruct (do_result res); reflexivity.
  - apply Z.leb_gt in Hlast. cbn [orb].
    rewrite on_eq_on_loop. cbn [triggers NewRetrier on_loop]. rewrite Ht. cbn [negb].
    destruct Hbk as (bk & -> & Htotal); [lia|].
    destruct (WaitTime bk i resp1 (rand_source (snd (http_Do c req (world s)))))
      as [d|] eqn:Hw; [|exfalso; eapply Htotal; [|exact Hw]; lia].
    rewrite ctx_after_GetBody, Hcx.
    pose proof (Hsel d (snd (http_Do c req (world s)))) as Hf.
    destruct (after_or_done d cx (snd (http_Do c req (world s)))) as [fired w2].
    cbn [fst] in Hf. subst fired.
    edestruct (IH (i + 1)) as (req' & resp' & s' & evs & lastreq & res' & Hrun & Hlog & Hn & Hres).
    + lia.
    + lia.
    + rewrite ctx_after_GetBody. exact Hcx.
    + exists req', resp', s', (EvAttempt req res :: EvSleep d :: evs), lastreq, res'.
      split; [exact Hrun|]. split; [|split].
      * rewrite Hlog. cbn [log]. rewrite <- !app_assoc. reflexivity.
      * cbn [app]. unfold attempts in Hn |- *.
        cbn [filter is_attempt List.length]. lia.
      * exact Hres.
Qed.

(** C1.  With [maxAttempts = N >= 1], one trigger that accepts every
    response, a context that never fires and a backoff that returns a
    wait time, the loop makes exactly [N] transport attempts and ends
    on the last one: the response and the error slot it returns are
    those of that attempt. *)
Theorem retryLoop_exactly_N_attempts (c : Client W) (N : Z) (b : option Backoff)
  (t : Response -> bool) (req : Request) (resp : Response) (s : State W) :
  1 <= N ->
  (forall r, t r = true) ->
  (forall w, ctx_Err (ctx req) w = None) ->
  (forall d w, fst (after_or_done d (ctx req) w) = true) ->
  (1 < N -> exists bk, b = Some bk
                       /\ forall i r u, 0 <= i < N - 1 -> WaitTime bk i r u <> None) ->
  exists req' resp' s' evs lastreq res,
    retryLoop (Z.to_nat N) c (NewRetrier N b [t]) 0 req resp s = (Ok (req', resp'), s')
    /\ log s' = log s ++ evs ++ [EvAttempt lastreq res]
    /\ Z.of_nat (attempts (log s')) = Z.of_nat (attempts (log s)) + N
    /\ Raw resp' = fst (do_result res)
    /\ err resp' = snd (do_result res).
Proof.
  intros HN Ht Hctx Hsel Hbk.
  destruct (retryLoop_all_attempts c N b t (ctx req) Ht Hctx Hsel Hbk
              (Z.to_nat N) 0 req resp s)
    as (req' & resp' & s' & evs & lastreq & res & Hrun & Hlog & Hn & Hres);
    [lia | f_equal; lia | reflexivity |].
  exists req', resp', s', evs, lastreq, res.
  split; [exact Hrun|]. split; [exact Hlog|]. split; [|split].
  - rewrite Hlog, attempts_app. lia.
  - rewrite <- Hres. reflexivity.
  - rewrite <- Hres. reflexivity.
Qed.

End Loop.

Lemma retryLoop_exactly_N_attempts_witness :
  exists req' resp' s' evs lastreq res,
    @retryLoop Z sim_host (Z.to_nat 3) sim_client
      (NewRetrier 3 (Some (NewConstantBackoff 10 false)) [sim_always]) 0
      (sim_request 0 None None) newResponse sim_start = (Ok (req', resp'), s')
    /\ log s' = log sim_start ++ evs ++ [EvAttempt lastreq res]
    /\ Z.of_nat (attempts (log s')) = Z.of_nat (attempts (log sim_start)) + 3
    /\ Raw resp' = fst (@do_result Z sim_host res)
    /\ err resp' = snd (@do_result Z sim_host res).
Proof.
  apply (@retryLoop_exactly_N_attempts Z sim_host sim_client 3
           (Some (NewConstantBackoff 10 false)) sim_always
           (sim_request 0 None None) newResponse sim_start).
  - lia.
  - reflexivity.
  - reflexivity.
  - reflexivity.
  - intros _. exists (NewConstantBackoff 10 false). split; [reflexivity|].
    intros i r u _. discriminate.
Defined.

(** ** Cancellation during the backoff wait *)


Section Cancellation.

Context {W : Type} {host : Host W}.

(** The events of a run of the loop: either the context never cut a
    wait short, or it did so once, at the very end, and the loop
    returned with [ctx.Err()] in the error slot. *)
Lemma retryLoop_trace (c : Client W) (r : Retrier) :
  forall (fuel : nat) (i : Z) (req : Request) (resp : Response) (s : State W)
         (out : outcome (Request * Response)) (s' : State W),
    retryLoop fuel c r i req resp s = (out, s') ->
    exists evs,
      log s' = log s ++ evs
      /\ (no_ctx_done evs
          \/ exists evs0 req' resp',
              evs = evs0 ++ [EvCtxDone (err resp')]
              /\ no_ctx_done evs0
              /\ out = Ok (req', resp')
              /\ err resp' = ctx_Err (ctx req) (world s')).
Proof.
  induction fuel as [|fuel IH]; intros i req resp s out s' Hrun.
  - cbn in Hrun. injection Hrun as <- <-.
    exists []. rewrite app_nil_r. split; [reflexivity|]. left. intros e [].
  - destruct (Z.ltb_spec i (maxAttempts r)) as [Hi|Hi].
    + rewrite retryLoop_step in Hrun by exact Hi. cbn zeta in Hrun.
      set (res := fst (http_Do c req (world s))) in *.
      set (resp1 := set_result resp (fst (do_result res)) (snd (do_result res))) in *.
      set (s1 := {| world := snd (http_Do c req (world s));
                    log := log s ++ [EvAttempt req res] |}) in *.
      assert (Hone : no_ctx_done [EvAttempt req res]).
      { intros e [<- | []]. reflexivity. }
      destruct (is_some (ctx_Err (ctx req) (world s1)) || (maxAttempts r - 1 <=? i)
                || negb (on r resp1)).
      { injection Hrun as <- <-. exists [EvAttempt req res]. split; [reflexivity|].
        left. exact Hone. }
      destruct (backoff r) as [b|].
      2:{ injection Hrun as <- <-. exists [EvAttempt req res]. split; [reflexivity|].
          left. exact Hone. }
      destruct (WaitTime b i resp1 (rand_source (world s1))) as [d|].
      2:{ injection Hrun as <- <-. exists [EvAttempt req res]. split; [reflexivity|].
          left. exact Hone. }
      rewrite ctx_after_GetBody in Hrun.
      destruct (after_or_done d (ctx req) (world s1)) as [[|] w2].
      * apply IH in Hrun. destruct Hrun as (evs & Hlog & Hshape).
        cbn [log s1] in Hlog. rewrite <- !app_assoc in Hlog. cbn [app] in Hlog.
        exists (EvAttempt req res :: EvSleep d :: evs). split; [exact Hlog|].
        destruct Hshape as [Hno | (evs0 & req' & resp' & -> & Hno & -> & Herr)].
        -- left. intros e [<- | [<- | He]]; auto.
        -- right. exists (EvAttempt req res :: EvSleep d :: evs0), req', resp'.
           repeat split.
           ++ intros e [<- | [<- | He]]; auto.
           ++ rewrite Herr, ctx_after_GetBody. reflexivity.
      * injection Hrun as <- <-.
        exists [EvAttempt req res; EvCtxDone (ctx_Err (ctx req) w2)].
        split; [cbn [log s1]; rewrite <- app_assoc; reflexivity|].
        right.
        exists [EvAttempt req res],
          (match GetBody req with
           | Some g => set_Body req (fst (g tt))
           | None => req
           end),
          (set_err resp1 (ctx_Err (ctx req) w2)).
        split; [reflexivity|]. split; [exact Hone|]. split; reflexivity.
    + apply Z.ltb_ge in Hi. cbn [retryLoop] in Hrun. rewrite Hi in Hrun.
      injection Hrun as <- <-.
      exists []. rewrite app_nil_r. split; [reflexivity|]. left. intros e [].
Qed.


End Cancellation.


(** ** Admission, zero attempts and body replay *)

Section Prelude.

Context {W : Type} {host : Host W}.

(** Admission never panics and makes no transport attempt. *)
Lemma admission_spec (c : Client W) (req : Request) (s : State W) :
  exists e s' evs,
    admission c req s = (Ok e, s')
    /\ log s' = log s ++ evs
    /\ attempts evs = 0%nat
    /\ first_attempt evs = None.
Proof.
  unfold admission. destruct (limiter c) as [l|].
  - destruct (Allow l req); cbn [negb].
    + exists None, s, []. rewrite app_nil_r. repeat split.
    + unfold bind, lift, emit, ret.
      destruct (Wait l (ctx req) (world s)) as [e w] eqn:Hw.
      exists e, {| world := w; log := log s ++ [EvLimiterWait e] |}, [EvLimiterWait e].
      repeat split.
  - exists None, s, []. rewrite app_nil_r. repeat split.
Qed.

(** Without a limiter, and with a body that needs no draining, the whole
    of [doWithRetry] is the loop from attempt 0. *)
Lemma doWithRetry_is_loop (c : Client W) (req : Request) (r : Retrier)
  (resp : Response) (s : State W) :
  limiter c = None ->
  retrier req = Some r ->
  Body req = None ->
  doWithRetry c req resp s = retryLoop (Z.to_nat (maxAttempts r)) c r 0 req resp s.
Proof.
  intros Hl Hr Hb. unfold doWithRetry. rewrite Hr, Hb.
  assert (E : admissionAndLoop c r req resp s
              = retryLoop (Z.to_nat (maxAttempts r)) c r 0 req resp s).
  { unfold admissionAndLoop, admission, bind, ret. rewrite Hl. reflexivity. }
  destruct (1 <? maxAttempts r); exact E.
Qed.

(** C9.  With a retrier whose [maxAttempts] is not positive the loop
    body never runs: [Do] makes no transport attempt, and once the
    request is admitted the response that comes out of [doWithRetry]
    has neither a raw response nor an error, so the post-response hooks
    still run on it, and on that empty response. *)
Theorem nonpositive_maxAttempts_no_attempt (c : Client W) (req req' : Request)
  (r : Retrier) (s : State W) :
  onBeforeRequest c req = (req', None) ->
  retrier req' = Some r ->
  maxAttempts r <= 0 ->
  exists e s',
    admission c req' s = (Ok e, s')
    /\ attempts (log s') = attempts (log s)
    /\ doWithRetry c req' newResponse s = (Ok (req', set_err newResponse e), s')
    /\ Do c req s = (Ok (onAfterResponse c (set_err newResponse e)), s')
    /\ (e = None ->
        Raw (set_err newResponse e) = None
        /\ err (set_err newResponse e) = None
        /\ Do c req s
           = (Ok (onAfterResponse_loop (afterResponseHooks c) newResponse), s')).
Proof.
  intros Hhooks Hr Hmax.
  destruct (admission_spec c req' s) as (e & s' & evs & Hadm & Hlog & Hnone & _).
  assert (Hrun : doWithRetry c req' newResponse s
                 = (Ok (req', set_err newResponse e), s')).
  { unfold doWithRetry. rewrite Hr.
    replace (1 <? maxAttempts r) with false by (symmetry; apply Z.ltb_ge; lia).
    unfold admissionAndLoop, bind. rewrite Hadm.
    destruct e as [e|]; [reflexivity|].
    replace (Z.to_nat (maxAttempts r)) with 0%nat by lia.
    reflexivity. }
  assert (HDo : Do c req s = (Ok (onAfterResponse c (set_err newResponse e)), s')).
  { unfold Do. rewrite Hhooks. unfold bind. rewrite Hrun. reflexivity. }
  exists e, s'. split; [exact Hadm|]. split; [|split; [exact Hrun|split; [exact HDo|]]].
  - rewrite Hlog, attempts_app, Hnone. lia.
  - intros ->. split; [reflexivity|]. split; [reflexivity|]. exact HDo.
Qed.

(** The loop's first attempt, when there is one, sends the request the
    loop was entered with. *)
Lemma retryLoop_first_attempt (c : Client W) (r : Retrier) (fuel : nat) (i : Z)
  (req : Request) (resp : Response) (s s' : State W)
  (out : outcome (Request * Response)) :
  retryLoop fuel c r i req resp s = (out, s') ->
  exists evs,
    log s' = log s ++ evs
    /\ (first_attempt evs = None \/ first_attempt evs = Some req).
Proof.
  destruct fuel as [|fuel]; intros Hrun.
  - cbn in Hrun. injection Hrun as <- <-. exists []. rewrite app_nil_r. auto.
  - destruct (Z.ltb_spec i (maxAttempts r)) as [Hi|Hi].
    + destruct (retryLoop_trace c r (S fuel) i req resp s out s' Hrun)
        as (evs & Hlog & _).
      exists evs. split; [exact Hlog|]. right.
      rewrite retryLoop_step in Hrun by exact Hi. cbn zeta in Hrun.
      set (s1 := {| world := snd (http_Do c req (world s));
                    log := log s ++ [EvAttempt req (fst (http_Do c req (world s)))] |})
        in *.
      assert (Hpre : exists evs1, log s' = log s1 ++ evs1).
      { destruct (_ || _ || _).
        { injection Hrun as <- <-. exists []. rewrite app_nil_r. reflexivity. }
        destruct (backoff r) as [b|].
        2:{ injection Hrun as <- <-. exists []. rewrite app_nil_r. reflexivity. }
        destruct (WaitTime b i _ _) as [d|].
        2:{ injection Hrun as <- <-. exists []. rewrite app_nil_r. reflexivity. }
        destruct (after_or_done d _ _) as [[|] w2].
        - apply retryLoop_trace in Hrun. destruct Hrun as (evs1 & Hl & _).
          cbn [log] in Hl. rewrite <- app_assoc in Hl.
          eexists. exact Hl.
        - injection Hrun as <- <-. eexists. reflexivity. }
      destruct Hpre as (evs1 & Hl1). cbn [log s1] in Hl1.
      rewrite Hlog, <- app_assoc in Hl1. apply app_inv_head in Hl1.
      rewrite Hl1. reflexivity.
    + apply Z.ltb_ge in Hi. cbn [retryLoop] in Hrun. rewrite Hi in Hrun.
      injection Hrun as <- <-. exists []. rewrite app_nil_r. auto.
Qed.

Lemma first_attempt_app_none (l1 l2 : list event) :
  first_attempt l1 = None -> first_attempt (l1 ++ l2) = first_attempt l2.
Proof.
  induction l1 as [|[] l1 IH]; cbn; auto. discriminate.
Qed.

Lemma admissionAndLoop_first_attempt (c : Client W) (r : Retrier) (req : Request)
  (resp : Response) (s s' : State W) (out : outcome (Request * Response)) :
  admissionAndLoop c r req resp s = (out, s') ->
  exists evs,
    log s' = log s ++ evs
    /\ (first_attempt evs = None \/ first_attempt evs = Some req).
Proof.
  unfold admissionAndLoop, bind. intros Hrun.
  destruct (admission_spec c req s) as (e & s0 & evs0 & Hadm & Hlog0 & _ & Hfa).
  rewrite Hadm in Hrun. destruct e as [e|].
  - injection Hrun as <- <-. exists evs0. auto.
  - apply retryLoop_first_attempt in Hrun. destruct Hrun as (evs & Hlog & Hfirst).
    exists (evs0 ++ evs). split.
    + rewrite Hlog, Hlog0, app_assoc. reflexivity.
    + rewrite first_attempt_app_none by exact Hfa. exact Hfirst.
Qed.

(** C2.  A request with a body that cannot be regenerated and a retrier
    with [maxAttempts > 1]: when draining the body fails, [doWithRetry]
    returns with the read error in the error slot and nothing happened
    in the world (no admission, no attempt); when it succeeds, the
    pipeline goes on with a request whose body reads as the drained
    bytes and whose [GetBody] gives a fresh reader over the same bytes
    each time, and that request is the one the first attempt sends. *)
Theorem unreplayable_body_is_drained_first (c : Client W) (req : Request)
  (r : Retrier) (b : ReadCloser) (resp : Response) (s : State W) :
  retrier req = Some r ->
  1 < maxAttempts r ->
  Body req = Some b ->
  GetBody req = None ->
  (forall e, snd (read_all b) = Some e ->
     doWithRetry c req resp s = (Ok (req, set_err resp (Some e)), s))
  /\ (snd (read_all b) = None ->
      exists req1 body1 g rc,
        doWithRetry c req resp s = admissionAndLoop c r req1 resp s
        /\ Body req1 = Some body1
        /\ read_all body1 = (fst (read_all b), None)
        /\ GetBody req1 = Some g
        /\ g tt = (Some rc, None)
        /\ read_all rc = (fst (read_all b), None)
        /\ retrier req1 = Some r
        /\ ctx req1 = ctx req
        /\ forall out s', doWithRetry c req resp s = (out, s') ->
             exists evs,
               log s' = log s ++ evs
               /\ (first_attempt evs = None \/ first_attempt evs = Some req1)).
Proof.
  intros Hr Hmax Hb Hg.
  assert (Hlt : (1 <? maxAttempts r) = true) by (apply Z.ltb_lt; exact Hmax).
  split.
  - intros e He. unfold doWithRetry. rewrite Hr, Hlt, Hb, Hg.
    unfold drainBody. destruct (read_all b) as [data fail]. cbn in He. subst fail.
    reflexivity.
  - intros Hok.
    assert (Hrun : doWithRetry c req resp s
                   = admissionAndLoop c r
                       (SetBody req (Some (BytesBuffer (fst (read_all b))))) resp s).
    { unfold doWithRetry. rewrite Hr, Hlt, Hb, Hg.
      unfold drainBody. destruct (read_all b) as [data fail]. cbn in Hok. subst fail.
      reflexivity. }
    set (data := fst (read_all b)) in *.
    assert (Hshape :
      exists body1 g rc,
        Body (SetBody req (Some (BytesBuffer data))) = Some body1
        /\ read_all body1 = (data, None)
        /\ GetBody (SetBody req (Some (BytesBuffer data))) = Some g
        /\ g tt = (Some rc, None)
        /\ read_all rc = (data, None)).
    { unfold SetBody. cbn -[Z.eqb len64].
      destruct (len64 data =? 0) eqn:Hlen.
      - exists NoBody, (fun _ : unit => (Some NoBody, None)), NoBody.
        assert (data = []) as ->.
        { apply Z.eqb_eq in Hlen. unfold len64 in Hlen.
          destruct data; [reflexivity | cbn in Hlen; lia]. }
        repeat split.
      - exists (Stream data None), (fun _ : unit => (Some (Stream data None), None)),
          (Stream data None).
        repeat split. }
    destruct Hshape as (body1 & g & rc & H1 & H2 & H3 & H4 & H5).
    exists (SetBody req (Some (BytesBuffer data))), body1, g, rc.
    split; [exact Hrun|]. split; [exact H1|]. split; [exact H2|].
    split; [exact H3|]. split; [exact H4|]. split; [exact H5|].
    split; [|split].
    + unfold SetBody. cbn -[Z.eqb len64]. destruct (len64 data =? 0); exact Hr.
    + unfold SetBody. cbn -[Z.eqb len64]. destruct (len64 data =? 0); reflexivity.
    + intros out s' Hout. rewrite Hrun in Hout.
      apply admissionAndLoop_first_attempt in Hout. exact Hout.
Qed.

End Prelude.

Lemma nonpositive_maxAttempts_no_attempt_witness :
  exists e s',
    @Do Z sim_host sim_client (sim_request 0 None (Some (sim_retrier 0))) sim_start
    = (Ok (@onAfterResponse Z sim_client (set_err newResponse e)), s')
    /\ attempts (log s') = attempts (log sim_start).
Proof.
  destruct (@nonpositive_maxAttempts_no_attempt Z sim_host sim_client
              (sim_request 0 None (Some (sim_retrier 0)))
              (sim_request 0 None (Some (sim_retrier 0)))
              (sim_retrier 0) sim_start)
    as (e & s' & _ & Hn & _ & HDo & _).
  - reflexivity.
  - reflexivity.
  - cbn. lia.
  - exists e, s'. split; assumption.
Defined.

Lemma unreplayable_body_is_drained_first_witness :
  @doWithRetry Z sim_host sim_client
    (sim_request 0 (Some (Stream [] (Some "read failed"%string))) (Some (sim_retrier 3)))
    newResponse sim_start
  = (Ok (sim_request 0 (Some (Stream [] (Some "read failed"%string)))
           (Some (sim_retrier 3)),
         set_err newResponse (Some "read failed"%string)),
     sim_start).
Proof.
  apply (proj1 (@unreplayable_body_is_drained_first Z sim_host sim_client
                  (sim_request 0 (Some (Stream [] (Some "read failed"%string)))
                     (Some (sim_retrier 3)))
                  (sim_retrier 3) (Stream [] (Some "read failed"%string))
                  newResponse sim_start eq_refl ltac:(cbn; lia) eq_refl eq_refl)).
  reflexivity.
Defined.

(* ----------------------------------------------------------------- *)
(** ** Float arithmetic of the backoff strategies *)

(** ** Binary digits *)

Lemma digits2_pos_size (p : positive) : digits2_pos p = Pos.size p.
Proof. induction p; cbn; congruence. Qed.

Lemma digits2_log2 (p : positive) : Zpos (digits2_pos p) = Z.log2 (Zpos p) + 1.
Proof.
  rewrite digits2_pos_size. destruct p; cbn; try lia.
Qed.

Lemma digits2_bounds (p : positive) :
  2 ^ (Zpos (digits2_pos p) - 1) <= Zpos p < 2 ^ Zpos (digits2_pos p).
Proof.
  rewrite digits2_log2.
  replace (Z.log2 (Zpos p) + 1 - 1) with (Z.log2 (Zpos p)) by lia.
  replace (Z.log2 (Zpos p) + 1) with (Z.succ (Z.log2 (Zpos p))) by lia.
  apply Z.log2_spec. lia.
Qed.

Lemma digits2_unique (p : positive) (d : Z) :
  2 ^ (d - 1) <= Zpos p < 2 ^ d -> Zpos (digits2_pos p) = d.
Proof.
  intros H. rewrite digits2_log2.
  assert (0 <= d - 1).
  { destruct (Z.ltb_spec (d - 1) 0) as [Hn|]; [|lia].
    assert (0 < d \/ d <= 0) as [|] by lia.
    - lia.
    - rewrite (Z.pow_neg_r 2 (d - 1)) in H by lia.
      assert (2 ^ d <= 1).
      { destruct (Z.eq_dec d 0) as [->|]; [cbn; lia|].
        rewrite Z.pow_neg_r by lia. lia. }
      lia. }
  assert (Z.log2 (Zpos p) = d - 1); [|lia].
  apply Z.log2_unique; [lia|].
  replace (Z.succ (d - 1)) with d by lia. exact H.
Qed.

Lemma Zdigits2_mul_pow2 (p : positive) (k : Z) :
  0 <= k -> Zdigits2 (Zpos p * 2 ^ k) = Zpos (digits2_pos p) + k.
Proof.
  intros Hk.
  assert (0 < 2 ^ k) by (apply Z.pow_pos_nonneg; lia).
  destruct (Zpos p * 2 ^ k) as [|q|q] eqn:E; try lia.
  cbn [Zdigits2]. apply digits2_unique. rewrite <- E.
  pose proof (digits2_bounds p) as [Hlo Hhi].
  replace (Zpos (digits2_pos p) + k - 1) with ((Zpos (digits2_pos p) - 1) + k) by lia.
  assert (0 <= Zpos (digits2_pos p) - 1) by lia.
  rewrite !Z.pow_add_r by lia.
  split; [apply Z.mul_le_mono_nonneg_r | apply Z.mul_lt_mono_pos_r]; lia.
Qed.

(** ** Right shifts of the rounding machinery *)

Lemma iter_pos_nat {A : Type} (f : A -> A) (p : positive) (x : A) :
  iter_pos f p x = Nat.iter (Pos.to_nat p) f x.
Proof.
  revert x. induction p as [p IH|p IH|]; intros x; cbn [iter_pos].
  - rewrite !IH, Pos2Nat.inj_xI.
    replace (S (2 * Pos.to_nat p)) with (Pos.to_nat p + S (Pos.to_nat p))%nat by lia.
    rewrite Nat.iter_add, (Nat.iter_succ_r (Pos.to_nat p)). reflexivity.
  - rewrite !IH, Pos2Nat.inj_xO.
    replace (2 * Pos.to_nat p)%nat with (Pos.to_nat p + Pos.to_nat p)%nat by lia.
    rewrite Nat.iter_add. reflexivity.
  - reflexivity.
Qed.

Lemma shr_1_m (r : shr_record) :
  0 <= shr_m r -> shr_m (shr_1 r) = shr_m r / 2.
Proof.
  destruct r as [m b s]. cbn [shr_m]. intros Hm.
  destruct m as [|[p|p|]|p]; cbn [shr_1 shr_m]; [reflexivity | | | reflexivity | lia].
  - rewrite Pos2Z.inj_xI. apply Z.div_unique with 1; lia.
  - rewrite Pos2Z.inj_xO. apply Z.div_unique with 0; lia.
Qed.

Lemma shr_iter_m (n : nat) (r : shr_record) :
  0 <= shr_m r ->
  shr_m (Nat.iter n shr_1 r) = shr_m r / 2 ^ Z.of_nat n.
Proof.
  intros Hm. induction n as [|n IH].
  - cbn. rewrite Z.div_1_r. reflexivity.
  - rewrite Nat.iter_succ, shr_1_m.
    + rewrite IH, Nat2Z.inj_succ, Z.pow_succ_r by lia.
      rewrite Z.div_div by (try apply Z.pow_pos_nonneg; lia).
      f_equal. lia.
    + rewrite IH. apply Z.div_pos; [lia | apply Z.pow_pos_nonneg; lia].
Qed.

Lemma shr_1_exact (m : Z) :
  0 <= m ->
  shr_1 {| shr_m := 2 * m; shr_r := false; shr_s := false |}
  = {| shr_m := m; shr_r := false; shr_s := false |}.
Proof.
  intros Hm. destruct m as [|p|p]; [reflexivity | reflexivity | lia].
Qed.

Lemma shr_iter_exact (n : nat) (m : Z) :
  0 <= m ->
  Nat.iter n shr_1 {| shr_m := m * 2 ^ Z.of_nat n; shr_r := false; shr_s := false |}
  = {| shr_m := m; shr_r := false; shr_s := false |}.
Proof.
  revert m. induction n as [|n IH]; intros m Hm.
  - cbn. rewrite Z.mul_1_r. reflexivity.
  - rewrite Nat.iter_succ_r, Nat2Z.inj_succ, Z.pow_succ_r by lia.
    replace (m * (2 * 2 ^ Z.of_nat n)) with (2 * (m * 2 ^ Z.of_nat n)) by lia.
    rewrite shr_1_exact.
    + apply IH. exact Hm.
    + apply Z.mul_nonneg_nonneg; [lia | apply Z.pow_nonneg; lia].
Qed.

(** [shr] by a known amount. *)
Lemma shr_m_nonneg (r : shr_record) (e n : Z) :
  0 <= shr_m r -> 0 <= n ->
  shr_m (fst (shr r e n)) = shr_m r / 2 ^ n /\ snd (shr r e n) = e + n.
Proof.
  intros Hm Hn. destruct n as [|p|p]; [| |lia].
  - cbn. rewrite Z.div_1_r. split; [reflexivity | lia].
  - cbn [shr fst snd]. rewrite iter_pos_nat, shr_iter_m by exact Hm.
    rewrite positive_nat_Z. split; reflexivity.
Qed.

Lemma shr_exact (m e n : Z) :
  0 <= m -> 0 <= n ->
  shr {| shr_m := m * 2 ^ n; shr_r := false; shr_s := false |} e n
  = ({| shr_m := m; shr_r := false; shr_s := false |}, e + n).
Proof.
  intros Hm Hn. destruct n as [|p|p]; [| |lia].
  - cbn [shr]. rewrite Z.pow_0_r, Z.mul_1_r, Z.add_0_r. reflexivity.
  - cbn [shr]. rewrite iter_pos_nat.
    rewrite <- (positive_nat_Z p) at 1. rewrite shr_iter_exact by exact Hm.
    reflexivity.
Qed.

Lemma fexp_normal (e : Z) : -1021 <= e -> fexp 53 1024 e = e - 53.
Proof. intros H. unfold fexp, emin. lia. Qed.

(** Rounding a 53-digit mantissa that carries [k] trailing zero bits is
    exact. *)
Lemma binary_round_aux_exact (s : bool) (q : positive) (k e : Z) :
  Zpos (digits2_pos q) = 53 -> 0 <= k -> -1074 <= e + k ->
  binary_round_aux 53 1024 s (Zpos q * 2 ^ k) e loc_Exact
  = if e + k <=? 971 then S754_finite s q (e + k) else S754_infinity s.
Proof.
  intros Hq Hk He.
  unfold binary_round_aux.
  assert (H1 : shr_fexp 53 1024 (Zpos q * 2 ^ k) e loc_Exact
               = ({| shr_m := Zpos q; shr_r := false; shr_s := false |}, e + k)).
  { unfold shr_fexp. rewrite Zdigits2_mul_pow2, Hq by exact Hk.
    rewrite fexp_normal by lia.
    replace (53 + k + e - 53 - e) with k by lia.
    cbn [shr_record_of_loc]. apply shr_exact; lia. }
  rewrite H1. cbn [shr_m loc_of_shr_record round_nearest_even].
  assert (H2 : shr_fexp 53 1024 (Zpos q) (e + k) loc_Exact
               = ({| shr_m := Zpos q; shr_r := false; shr_s := false |}, e + k)).
  { unfold shr_fexp. cbn [Zdigits2]. rewrite Hq, fexp_normal by lia.
    replace (53 + (e + k) - 53 - (e + k)) with 0 by lia. reflexivity. }
  rewrite H2. cbn [shr_m]. reflexivity.
Qed.

Lemma round_nearest_even_bounds (q : Z) (l : location) :
  q <= round_nearest_even q l <= q + 1.
Proof.
  destruct l as [|[]]; cbn [round_nearest_even]; try destruct (Z.even q); lia.
Qed.

Lemma shr_m_record_of_loc (m : Z) (l : location) :
  shr_m (shr_record_of_loc m l) = m.
Proof. destruct l as [|[]]; reflexivity. Qed.

(** Rounding a positive mantissa of at least 53 digits, away from the
    subnormal range: the result is a normal float (or an overflow) whose
    exponent is at least the one of the leading digit. *)
Lemma binary_round_aux_pos (s : bool) (m : positive) (e : Z) (l : location) :
  53 <= Zpos (digits2_pos m) -> -1074 <= e ->
  exists m' e',
    binary_round_aux 53 1024 s (Zpos m) e l
    = (if e' <=? 971 then S754_finite s m' e' else S754_infinity s)
    /\ Zpos (digits2_pos m') = 53
    /\ e + Zpos (digits2_pos m) - 53 <= e'.
Proof.
  intros Hd He.
  set (d := Zpos (digits2_pos m)) in *.
  pose proof (digits2_bounds m) as [Hlo Hhi]. fold d in Hlo, Hhi.
  unfold binary_round_aux.
  assert (Hn : fexp 53 1024 (Zdigits2 (Zpos m) + e) - e = d - 53).
  { cbn [Zdigits2]. fold d. rewrite fexp_normal by lia. lia. }
  unfold shr_fexp at 1. rewrite Hn.
  destruct (shr_m_nonneg (shr_record_of_loc (Zpos m) l) e (d - 53)) as [Hq He'];
    [rewrite shr_m_record_of_loc; lia | lia |].
  destruct (shr (shr_record_of_loc (Zpos m) l) e (d - 53)) as [mrs' e'].
  cbn [fst snd] in Hq, He'. rewrite shr_m_record_of_loc in Hq.
  set (q' := round_nearest_even (shr_m mrs') (loc_of_shr_record mrs')).
  pose proof (round_nearest_even_bounds (shr_m mrs') (loc_of_shr_record mrs')) as Hq'.
  fold q' in Hq'.
  assert (Hpow : 0 < 2 ^ (d - 53)) by (apply Z.pow_pos_nonneg; lia).
  assert (Hq0 : 2 ^ 52 <= shr_m mrs' < 2 ^ 53).
  { rewrite Hq. split.
    - apply Z.div_le_lower_bound; [exact Hpow|].
      rewrite <- Z.pow_add_r by lia. replace (d - 53 + 52) with (d - 1) by lia. exact Hlo.
    - apply Z.div_lt_upper_bound; [exact Hpow|].
      rewrite <- Z.pow_add_r by lia. replace (d - 53 + 53) with d by lia. exact Hhi. }
  assert (Hcase : q' < 2 ^ 53 \/ q' = 2 ^ 53) by lia.
  destruct Hcase as [Hlt | Heq].
  - destruct q' as [|p'|p'] eqn:Ep; [lia | | lia].
    assert (Hd' : Zpos (digits2_pos p') = 53) by (apply digits2_unique; lia).
    unfold shr_fexp. cbn [Zdigits2]. rewrite Hd', fexp_normal by lia.
    replace (53 + e' - 53 - e') with 0 by lia.
    cbn [shr shr_record_of_loc shr_m].
    exists p', e'. split; [reflexivity|]. split; [exact Hd' | lia].
  - rewrite Heq.
    unfold shr_fexp. change (Zdigits2 (2 ^ 53)) with 54.
    rewrite fexp_normal by lia.
    replace (54 + e' - 53 - e') with 1 by lia.
    cbn [shr_record_of_loc].
    change (2 ^ 53) with (2 ^ 52 * 2 ^ 1).
    rewrite shr_exact by lia. cbn [shr_m].
    exists 4503599627370496%positive, (e' + 1).
    split; [reflexivity|]. split; [reflexivity | lia].
Qed.

Lemma shr_nonneg (r : shr_record) (e n : Z) :
  0 <= shr_m r -> 0 <= shr_m (fst (shr r e n)).
Proof.
  intros Hm. destruct n as [|p|p]; cbn [shr fst]; try exact Hm.
  rewrite iter_pos_nat, shr_iter_m by exact Hm.
  apply Z.div_pos; [exact Hm | apply Z.pow_pos_nonneg; lia].
Qed.

Lemma binary_round_aux_sign (s : bool) (m e : Z) (l : location) :
  0 <= m -> has_sign s (binary_round_aux 53 1024 s m e l).
Proof.
  intros Hm. unfold binary_round_aux, shr_fexp.
  pose proof (shr_nonneg (shr_record_of_loc m l) e
                (fexp 53 1024 (Zdigits2 m + e) - e)) as H1.
  rewrite shr_m_record_of_loc in H1. specialize (H1 Hm).
  destruct (shr (shr_record_of_loc m l) e _) as [mrs' e'].
  cbn [fst] in H1.
  pose proof (round_nearest_even_bounds (shr_m mrs') (loc_of_shr_record mrs')) as Hq.
  set (q' := round_nearest_even (shr_m mrs') (loc_of_shr_record mrs')) in *.
  pose proof (shr_nonneg (shr_record_of_loc q' loc_Exact) e'
                (fexp 53 1024 (Zdigits2 q' + e') - e')) as H2.
  rewrite shr_m_record_of_loc in H2. specialize (H2 ltac:(lia)).
  destruct (shr (shr_record_of_loc q' loc_Exact) e' _) as [mrs'' e''].
  cbn [fst] in H2.
  destruct (shr_m mrs'') as [|p|p]; [reflexivity | | lia].
  destruct (e'' <=? 1024 - 53); reflexivity.
Qed.

(** ** Conversions from integers *)

Lemma Pos_iter_xO (m p : positive) :
  Zpos (Pos.iter xO m p) = Zpos m * 2 ^ Zpos p.
Proof.
  induction p as [|p IH] using Pos.peano_ind.
  - cbn [Pos.iter]. rewrite Pos2Z.inj_xO. change (2 ^ 1) with 2. lia.
  - rewrite Pos.iter_succ, Pos2Z.inj_xO, IH, Pos2Z.inj_succ, Z.pow_succ_r by lia. lia.
Qed.

Lemma binary_round_aux_exact0 (s : bool) (q : positive) (e : Z) :
  Zpos (digits2_pos q) = 53 -> -1074 <= e ->
  binary_round_aux 53 1024 s (Zpos q) e loc_Exact
  = if e <=? 971 then S754_finite s q e else S754_infinity s.
Proof.
  intros Hq He.
  pose proof (binary_round_aux_exact s q 0 e Hq ltac:(lia) ltac:(lia)) as H.
  rewrite Z.pow_0_r, Z.mul_1_r, Z.add_0_r in H. exact H.
Qed.

(** Normalising a positive mantissa at exponent 0. *)
Lemma binary_round_shape (s : bool) (m : positive) :
  exists m' e',
    binary_round 53 1024 s m 0
    = (if e' <=? 971 then S754_finite s m' e' else S754_infinity s)
    /\ Zpos (digits2_pos m') = 53
    /\ Zpos (digits2_pos m) - 53 <= e'
    /\ (Zpos (digits2_pos m) <= 53 ->
        e' = Zpos (digits2_pos m) - 53
        /\ Zpos m' = Zpos m * 2 ^ (53 - Zpos (digits2_pos m))).
Proof.
  set (d := Zpos (digits2_pos m)).
  assert (Hd : 1 <= d) by (unfold d; lia).
  unfold binary_round, shl_align. fold d.
  rewrite Z.add_0_r, fexp_normal, Z.sub_0_r by lia.
  destruct (d - 53) as [|p|p] eqn:E.
  - (* exactly 53 digits *)
    rewrite binary_round_aux_exact0 by (fold d; lia).
    exists m, 0. split; [reflexivity|]. split; [fold d; lia|]. split; [lia|].
    intros _. split; [lia|]. replace (53 - d) with 0 by lia. lia.
  - (* more than 53 digits *)
    destruct (binary_round_aux_pos s m 0 loc_Exact) as (m' & e' & H1 & H2 & H3);
      [fold d; lia | lia |].
    exists m', e'. split; [exact H1|]. split; [exact H2|]. fold d in H3.
    split; [lia|]. intros Hle. lia.
  - (* fewer than 53 digits: the mantissa is shifted left first *)
    assert (Hz : Zpos (Pos.iter xO m p) = Zpos m * 2 ^ (53 - d)).
    { rewrite Pos_iter_xO. f_equal. f_equal. lia. }
    assert (Hdz : Zpos (digits2_pos (Pos.iter xO m p)) = 53).
    { change (Zpos (digits2_pos (Pos.iter xO m p)))
        with (Zdigits2 (Zpos (Pos.iter xO m p))).
      rewrite Hz, Zdigits2_mul_pow2 by lia. fold d. lia. }
    rewrite binary_round_aux_exact0 by (try exact Hdz; lia).
    exists (Pos.iter xO m p), (Z.neg p).
    split; [reflexivity|]. split; [exact Hdz|]. split; [lia|].
    intros _. split; [lia | exact Hz].
Qed.

Lemma float64_of_int_pos (z : Z) :
  0 < z ->
  exists m e,
    float64_of_int z = (if e <=? 971 then S754_finite false m e else S754_infinity false)
    /\ Zpos (digits2_pos m) = 53
    /\ Zdigits2 z - 53 <= e
    /\ (Zdigits2 z <= 53 -> e = Zdigits2 z - 53 /\ Zpos m = z * 2 ^ (53 - Zdigits2 z)).
Proof.
  intros Hz. destruct z as [|p|p]; try lia.
  unfold float64_of_int, binary_normalize. cbn [Zdigits2].
  apply binary_round_shape.
Qed.

Lemma float64_of_int_neg (z : Z) :
  z < 0 -> has_sign true (float64_of_int z).
Proof.
  intros Hz. destruct z as [|p|p]; try lia.
  unfold float64_of_int, binary_normalize, binary_round.
  destruct (shl_align p 0 _) as [mz ez].
  apply binary_round_aux_sign. lia.
Qed.

(** ** Normal floats that hold an integer *)

Lemma is_norm_pos (f : float64) (v : Z) : is_norm f v -> 0 < v.
Proof.
  intros (q & e & _ & _ & He & Hv).
  assert (0 < Zpos q * 2 ^ (e + 52)).
  { apply Z.mul_pos_pos; [lia | apply Z.pow_pos_nonneg; lia]. }
  assert (0 < 2 ^ 52) by (apply Z.pow_pos_nonneg; lia).
  nia.
Qed.

Lemma Zdigits2_le53 (z : Z) : 0 < z < 2 ^ 53 -> 1 <= Zdigits2 z <= 53.
Proof.
  intros Hz. destruct z as [|p|p]; try lia. cbn [Zdigits2].
  split; [lia|].
  pose proof (digits2_bounds p) as [Hlo _].
  destruct (Z_le_gt_dec (Zpos (digits2_pos p)) 53) as [|Hgt]; [assumption|exfalso].
  assert (2 ^ 53 <= 2 ^ (Zpos (digits2_pos p) - 1)) by (apply Z.pow_le_mono_r; lia).
  lia.
Qed.

Lemma float64_of_int_norm (z : Z) :
  0 < z <= 2 ^ 53 -> is_norm (float64_of_int z) z.
Proof.
  intros Hz.
  assert (z = 2 ^ 53 \/ z < 2 ^ 53) as [-> | Hlt] by lia.
  - exists 4503599627370496%positive, 1. repeat split; lia.
  - pose proof (Zdigits2_le53 z ltac:(lia)) as Hd.
    destruct (float64_of_int_pos z) as (m & e & Hf & Hm & _ & Hex); [lia|].
    destruct (Hex ltac:(lia)) as [-> Hmz].
    exists m, (Zdigits2 z - 53).
    replace (Zdigits2 z - 53 <=? 971) with true in Hf by (symmetry; apply Z.leb_le; lia).
    split; [exact Hf|]. split; [exact Hm|]. split; [lia|].
    rewrite Hmz, <- Z.mul_assoc, <- Z.pow_add_r by lia.
    f_equal. f_equal. lia.
Qed.

Lemma norm_mantissa_bounds (q : positive) :
  Zpos (digits2_pos q) = 53 -> 2 ^ 52 <= Zpos q < 2 ^ 53.
Proof.
  intros Hq. pose proof (digits2_bounds q) as H. rewrite Hq in H. exact H.
Qed.

Lemma f64_mul_pow2 (f : float64) (a i : Z) :
  is_norm f a -> 0 <= i <= 1023 ->
  is_norm (f64_mul f (f64_pow2 i)) (a * 2 ^ i)
  \/ (f64_mul f (f64_pow2 i) = S754_infinity false /\ 2 ^ 1024 <= a * 2 ^ i).
Proof.
  intros (q & e & -> & Hq & He & Hv) Hi.
  unfold f64_mul, f64_pow2, SFmul. cbn [xorb].
  rewrite Pos2Z.inj_mul. change (Zpos 4503599627370496) with (2 ^ 52).
  rewrite binary_round_aux_exact by (try exact Hq; lia).
  replace (e + (i - 52) + 52) with (e + i) by lia.
  assert (Hvi : Zpos q * 2 ^ (e + i + 52) = a * 2 ^ i * 2 ^ 52).
  { replace (e + i + 52) with ((e + 52) + i) by lia.
    rewrite Z.pow_add_r, Z.mul_assoc, Hv by lia. lia. }
  destruct (Z.leb_spec (e + i) 971) as [Hle | Hgt].
  - left. exists q, (e + i). repeat split; lia.
  - right. split; [reflexivity|].
    pose proof (norm_mantissa_bounds q Hq) as [Hlo _].
    assert (2 ^ 52 * 2 ^ (972 + 52) <= Zpos q * 2 ^ (e + i + 52)).
    { apply Z.mul_le_mono_nonneg; try lia.
      apply Z.pow_le_mono_r; lia. }
    assert (0 < 2 ^ 52) by lia.
    change (2 ^ (972 + 52)) with (2 ^ 1024) in H.
    nia.
Qed.

Lemma f64_mul_inf (f : float64) (a : Z) :
  is_norm f a -> f64_mul f (S754_infinity false) = S754_infinity false.
Proof. intros (q & e & -> & _). reflexivity. Qed.

(** Comparison of normal floats is comparison of their values. *)
Lemma SFcompare_norm (x y : float64) (vx vy : Z) :
  is_norm x vx -> is_norm y vy -> SFcompare x y = Some (vx ?= vy).
Proof.
  intros (q1 & e1 & -> & Hq1 & He1 & Hv1) (q2 & e2 & -> & Hq2 & He2 & Hv2).
  pose proof (norm_mantissa_bounds q1 Hq1) as [Hl1 Hh1].
  pose proof (norm_mantissa_bounds q2 Hq2) as [Hl2 Hh2].
  assert (Hp : 0 < 2 ^ 52) by lia.
  cbn [SFcompare]. f_equal.
  destruct (Z.compare_spec e1 e2) as [-> | Hlt | Hgt].
  - change (Pos.compare_cont Eq q1 q2) with (Zpos q1 ?= Zpos q2).
    assert (HK : 0 < 2 ^ (e2 + 52)) by (apply Z.pow_pos_nonneg; lia).
    rewrite (Zmult_compare_compat_r (Zpos q1) (Zpos q2) (2 ^ (e2 + 52))) by lia.
    rewrite Hv1, Hv2. symmetry. apply Zmult_compare_compat_r. lia.
  - symmetry. apply Z.compare_lt_iff.
    assert (Zpos q1 * 2 ^ (e1 + 52) < Zpos q2 * 2 ^ (e2 + 52)); [|nia].
    assert (0 < 2 ^ (e1 + 52)) by (apply Z.pow_pos_nonneg; lia).
    assert (2 ^ (e1 + 52) * 2 <= 2 ^ (e2 + 52)).
    { replace (2 ^ (e1 + 52) * 2) with (2 ^ (e1 + 52 + 1))
        by (rewrite Z.pow_add_r by lia; lia).
      apply Z.pow_le_mono_r; lia. }
    change (2 ^ 53) with (2 ^ 52 * 2) in Hh1. nia.
  - symmetry. apply Z.compare_gt_iff.
    assert (Zpos q2 * 2 ^ (e2 + 52) < Zpos q1 * 2 ^ (e1 + 52)); [|nia].
    assert (0 < 2 ^ (e2 + 52)) by (apply Z.pow_pos_nonneg; lia).
    assert (2 ^ (e2 + 52) * 2 <= 2 ^ (e1 + 52)).
    { replace (2 ^ (e2 + 52) * 2) with (2 ^ (e2 + 52 + 1))
        by (rewrite Z.pow_add_r by lia; lia).
      apply Z.pow_le_mono_r; lia. }
    change (2 ^ 53) with (2 ^ 52 * 2) in Hh2. nia.
Qed.

Lemma math_Min_norm (x y : float64) (vx vy : Z) :
  is_norm x vx -> is_norm y vy -> is_norm (math_Min x y) (Z.min vx vy).
Proof.
  intros Hx Hy. pose proof (SFcompare_norm x y vx vy Hx Hy) as Hc.
  assert (Hm : math_Min x y = if vx <? vy then x else y).
  { destruct Hx as (q1 & e1 & -> & _), Hy as (q2 & e2 & -> & _).
    unfold math_Min, f64_lt, SFltb. cbn [f64_is_inf f64_is_nan f64_is_zero orb andb].
    rewrite Hc. unfold Z.ltb. destruct (vx ?= vy); reflexivity. }
  rewrite Hm. destruct (Z.ltb_spec vx vy).
  - rewrite Z.min_l by lia. exact Hx.
  - rewrite Z.min_r by lia. exact Hy.
Qed.

Lemma math_Min_norm_inf (x : float64) (vx : Z) :
  is_norm x vx -> math_Min x (S754_infinity false) = x.
Proof. intros (q & e & -> & _). reflexivity. Qed.

Lemma math_Min_zero_norm (y : float64) (vy : Z) :
  is_norm y vy -> math_Min (S754_zero false) y = S754_zero false.
Proof. intros (q & e & -> & _). reflexivity. Qed.

(** Back to integers. *)
Lemma int64_of_float_norm (f : float64) (v : Z) :
  is_norm f v -> v <= int64_max -> int64_of_float f = v.
Proof.
  intros Hf Hmax. pose proof (is_norm_pos f v Hf) as Hpos.
  destruct Hf as (q & e & -> & Hq & He & Hv).
  assert (Ht : trunc_mag q e = v).
  { unfold trunc_mag. destruct (Z.leb_spec 0 e) as [Hge | Hlt].
    - rewrite Z.pow_add_r, Z.mul_assoc in Hv by lia.
      apply (Z.mul_reg_r _ _ (2 ^ 52)); [lia | exact Hv].
    - assert (Hq' : Zpos q = v * 2 ^ (- e)).
      { replace 52 with ((e + 52) + - e) in Hv at 2 by lia.
        rewrite (Z.pow_add_r 2 (e + 52) (- e)) in Hv by lia.
        assert (0 < 2 ^ (e + 52)) by (apply Z.pow_pos_nonneg; lia).
        nia. }
      rewrite Hq'. apply Z.div_mul.
      assert (0 < 2 ^ (- e)) by (apply Z.pow_pos_nonneg; lia). lia. }
  unfold int64_of_float. rewrite Ht.
  replace ((int64_min <=? v) && (v <=? int64_max)) with true; [reflexivity|].
  symmetry. apply andb_true_iff. split; apply Z.leb_le; [unfold int64_min; lia | lia].
Qed.

(** ** Halving *)

Lemma Z_div_eucl_exact (k b : Z) : 0 < b -> Z.div_eucl (k * b) b = (k, 0).
Proof.
  intros Hb.
  pose proof (Z_div_mod (k * b) b ltac:(lia)) as H.
  destruct (Z.div_eucl (k * b) b) as [q r]. destruct H as [H1 H2].
  assert (q = k) by nia. subst q. f_equal. lia.
Qed.

Lemma SFdiv_core_two (q : positive) (e : Z) :
  Zpos (digits2_pos q) = 53 -> -1070 <= e ->
  SFdiv_core_binary 53 1024 (Zpos q) e (Zpos 4503599627370496) (-51)
  = (Zpos q * 2 ^ 1, e - 2, loc_Exact).
Proof.
  intros Hq He. unfold SFdiv_core_binary. cbv zeta. cbn [Zdigits2]. rewrite Hq.
  change (Zpos (digits2_pos 4503599627370496)) with 53.
  replace (Z.min (fexp 53 1024 (53 + e - (53 + -51))) (e - -51)) with (e - 2)
    by (rewrite fexp_normal by lia; lia).
  replace (e - -51 - (e - 2)) with 53 by lia.
  cbv iota beta. rewrite Z.shiftl_mul_pow2 by lia.
  replace (Zpos q * 2 ^ 53) with ((Zpos q * 2 ^ 1) * Zpos 4503599627370496)
    by (change (2 ^ 53) with (2 ^ 1 * Zpos 4503599627370496); lia).
  rewrite Z_div_eucl_exact by lia. reflexivity.
Qed.

Lemma f64_div_two_norm (q : positive) (e : Z) :
  Zpos (digits2_pos q) = 53 -> -1070 <= e <= 971 ->
  f64_div (S754_finite false q e) f64_two = S754_finite false q (e - 1).
Proof.
  intros Hq He. unfold f64_div, f64_two, SFdiv. rewrite SFdiv_core_two by lia.
  cbn [xorb]. rewrite binary_round_aux_exact by (try exact Hq; lia).
  replace (e - 2 + 1) with (e - 1) by lia.
  replace (e - 1 <=? 971) with true by (symmetry; apply Z.leb_le; lia).
  reflexivity.
Qed.

Lemma int64_of_float_half_norm (f : float64) (v : Z) :
  is_norm f v -> v <= int64_max -> int64_of_float (f64_div f f64_two) = v / 2.
Proof.
  intros Hf Hmax. pose proof (is_norm_pos f v Hf) as Hpos.
  destruct Hf as (q & e & -> & Hq & He & Hv).
  rewrite f64_div_two_norm by (try exact Hq; lia).
  assert (Ht : trunc_mag q (e - 1) = v / 2).
  { unfold trunc_mag. destruct (Z.leb_spec 0 (e - 1)) as [Hge | Hlt].
    - replace (e + 52) with (1 + (e - 1) + 52) in Hv by lia.
      rewrite !Z.pow_add_r, !Z.mul_assoc in Hv by lia.
      apply (Z.mul_reg_r _ _ (2 ^ 52)) in Hv; [|lia].
      rewrite <- Hv. change (2 ^ 1) with 2.
      replace (Zpos q * 2 * 2 ^ (e - 1)) with (Zpos q * 2 ^ (e - 1) * 2) by lia.
      symmetry. apply Z.div_mul. lia.
    - assert (Hq' : Zpos q = v * 2 ^ (- e)).
      { replace 52 with ((e + 52) + - e) in Hv at 2 by lia.
        rewrite (Z.pow_add_r 2 (e + 52) (- e)) in Hv by lia.
        assert (0 < 2 ^ (e + 52)) by (apply Z.pow_pos_nonneg; lia).
        nia. }
      rewrite Hq'. replace (- (e - 1)) with (1 + - e) by lia.
      rewrite Z.pow_add_r by lia. change (2 ^ 1) with 2.
      apply Z.div_mul_cancel_r; [lia|].
      assert (0 < 2 ^ (- e)) by (apply Z.pow_pos_nonneg; lia). lia. }
  unfold int64_of_float. rewrite Ht.
  assert (0 <= v / 2 <= v).
  { split; [apply Z.div_pos; lia | apply Z.div_le_upper_bound; lia]. }
  replace ((int64_min <=? v / 2) && (v / 2 <=? int64_max)) with true; [reflexivity|].
  symmetry. apply andb_true_iff. split; apply Z.leb_le; [unfold int64_min; lia | lia].
Qed.

(** ** Powers of two *)

Lemma Zdigits2_lower (z k : Z) : 0 <= k -> 2 ^ k <= z -> k + 1 <= Zdigits2 z.
Proof.
  intros Hk Hz.
  assert (0 < 2 ^ k) by (apply Z.pow_pos_nonneg; lia).
  destruct z as [|p|p]; try lia. cbn [Zdigits2].
  pose proof (digits2_bounds p) as [_ Hhi].
  destruct (Z_lt_le_dec k (Zpos (digits2_pos p))) as [|Hle]; [lia|exfalso].
  assert (2 ^ Zpos (digits2_pos p) <= 2 ^ k) by (apply Z.pow_le_mono_r; lia).
  lia.
Qed.

Lemma math_Exp2_small (i : Z) :
  0 <= i <= 1023 -> math_Exp2 (float64_of_int i) = f64_pow2 i.
Proof.
  intros Hi. assert (i = 0 \/ 0 < i) as [-> | Hpos] by lia; [reflexivity|].
  pose proof (float64_of_int_norm i ltac:(lia)) as Hn.
  pose proof (int64_of_float_norm _ _ Hn ltac:(unfold int64_max; lia)) as Hint.
  destruct Hn as (q & e & Hf & Hq & He & Hv).
  rewrite Hf in Hint |- *.
  pose proof (norm_mantissa_bounds q Hq) as [Hlo Hhi].
  assert (He43 : e <= -43).
  { destruct (Z_le_gt_dec e (-43)) as [|Hgt]; [assumption|exfalso].
    assert (2 ^ 10 <= 2 ^ (e + 52)) by (apply Z.pow_le_mono_r; lia).
    change (2 ^ 10) with 1024 in H. nia. }
  unfold math_Exp2.
  assert (Hov : f64_lt exp2_Overflow (S754_finite false q e) = false).
  { unfold f64_lt, SFltb, exp2_Overflow. cbn [SFcompare].
    destruct (Z.compare_spec (-43) e) as [<- | Hlt | Hgt]; [|lia|reflexivity].
    change (Pos.compare_cont Eq 9007199254740991 q) with (9007199254740991 ?= Zpos q).
    destruct (Z.compare_spec 9007199254740991 (Zpos q)); try reflexivity. lia. }
  rewrite Hov.
  change (f64_lt (S754_finite false q e) exp2_Underflow) with false.
  cbv iota. rewrite Hint.
  unfold SFldexp, f64_one, binary_round, shl_align.
  change (Zpos (digits2_pos 4503599627370496)) with 53.
  rewrite fexp_normal by lia.
  replace (53 + (-52 + i) - 53 - (-52 + i)) with 0 by lia.
  rewrite binary_round_aux_exact0 by (try reflexivity; lia).
  replace (-52 + i <=? 971) with true by (symmetry; apply Z.leb_le; lia).
  unfold f64_pow2. f_equal. lia.
Qed.

Lemma math_Exp2_large (i : Z) :
  1024 <= i -> math_Exp2 (float64_of_int i) = S754_infinity false.
Proof.
  intros Hi.
  destruct (float64_of_int_pos i) as (m & e & Hf & Hm & He & _); [lia|].
  pose proof (Zdigits2_lower i 10 ltac:(lia) ltac:(change (2 ^ 10) with 1024; lia)).
  rewrite Hf. destruct (e <=? 971); [|reflexivity].
  unfold math_Exp2.
  assert (Hov : f64_lt exp2_Overflow (S754_finite false m e) = true).
  { unfold f64_lt, SFltb, exp2_Overflow. cbn [SFcompare].
    destruct (Z.compare_spec (-43) e); first [reflexivity | lia]. }
  rewrite Hov. reflexivity.
Qed.

(** ** The clamped value in the exact range *)

Lemma pow2_1024_gt : 2 ^ 53 < 2 ^ 1024.
Proof. apply Z.pow_lt_mono_r; lia. Qed.

(** What [float64(initialDuration) * math.Exp2(float64(i))] is when the
    initial duration is held exactly. *)
Lemma scaled_initial (a i : Z) :
  1 <= a <= 2 ^ 53 -> 0 <= i ->
  let x := f64_mul (float64_of_int a) (math_Exp2 (float64_of_int i)) in
  is_norm x (a * 2 ^ i) \/ (x = S754_infinity false /\ 2 ^ 1024 <= a * 2 ^ i).
Proof.
  intros Ha Hi x. unfold x.
  pose proof (float64_of_int_norm a ltac:(lia)) as Hna.
  destruct (Z_le_gt_dec i 1023) as [Hle | Hgt].
  - rewrite math_Exp2_small by lia. apply f64_mul_pow2; [exact Hna | lia].
  - right. rewrite math_Exp2_large by lia. split; [eapply f64_mul_inf; exact Hna|].
    assert (2 ^ 1024 <= 2 ^ i) by (apply Z.pow_le_mono_r; lia).
    assert (0 < 2 ^ 1024) by (apply Z.pow_pos_nonneg; lia).
    nia.
Qed.

Lemma temp_exact (eb : exponentialBackoff) (i : Z) :
  1 <= eb_initialDuration eb <= 2 ^ 53 ->
  1 <= eb_maxDuration eb <= 2 ^ 53 ->
  0 <= i ->
  is_norm (exponentialBackoff_temp eb i) (cappedValue eb i).
Proof.
  intros Ha HM Hi. unfold exponentialBackoff_temp, cappedValue.
  pose proof (float64_of_int_norm (eb_maxDuration eb) ltac:(lia)) as HnM.
  destruct (scaled_initial (eb_initialDuration eb) i Ha Hi) as [Hx | [Hx Hbig]].
  - apply math_Min_norm; assumption.
  - rewrite Hx, (math_Min_norm_inf _ _ HnM).
    pose proof pow2_1024_gt. rewrite Z.min_l by lia. exact HnM.
Qed.

Lemma cappedValue_mono (eb : exponentialBackoff) (i j : Z) :
  0 <= eb_initialDuration eb -> 0 <= i <= j ->
  cappedValue eb i <= cappedValue eb j
  /\ (cappedValue eb i = eb_maxDuration eb -> cappedValue eb j = eb_maxDuration eb).
Proof.
  intros Ha Hij. unfold cappedValue.
  assert (2 ^ i <= 2 ^ j) by (apply Z.pow_le_mono_r; lia).
  assert (eb_initialDuration eb * 2 ^ i <= eb_initialDuration eb * 2 ^ j)
    by (apply Z.mul_le_mono_nonneg_l; lia).
  lia.
Qed.

(** Negative caps that are held exactly. *)
Lemma float64_of_int_neg_exact (z : Z) :
  - 2 ^ 53 <= z < 0 ->
  exists q e, float64_of_int z = S754_finite true q e
              /\ is_norm (S754_finite false q e) (- z).
Proof.
  intros Hz. destruct z as [|p|p]; try lia.
  pose proof (float64_of_int_norm (Zpos p) ltac:(lia)) as (q & e & Hf & Hn).
  exists q, e. split.
  - unfold float64_of_int, binary_normalize in Hf |- *.
    unfold binary_round in *.
    destruct (shl_align p 0 _) as [mz ez].
    revert Hf. unfold binary_round_aux.
    destruct (shr_fexp 53 1024 (Zpos mz) ez loc_Exact) as [mrs' e'].
    destruct (shr_fexp 53 1024 _ e' loc_Exact) as [mrs'' e''].
    destruct (shr_m mrs''); try discriminate.
    destruct (e'' <=? 1024 - 53); try discriminate.
    intros [= -> ->]. reflexivity.
  - exists q, e. split; [reflexivity|]. exact Hn.
Qed.

Lemma WaitTime_no_jitter_exact (eb : exponentialBackoff) (i u : Z) :
  eb_jitter eb = false ->
  1 <= eb_initialDuration eb <= 2 ^ 53 ->
  - 2 ^ 53 <= eb_maxDuration eb <= 2 ^ 53 ->
  0 <= i ->
  exponentialBackoff_WaitTime eb i u = Some (cappedValue eb i).
Proof.
  intros Hj Ha HM Hi. unfold exponentialBackoff_WaitTime. rewrite Hj. cbn [negb].
  f_equal.
  assert (0 < eb_maxDuration eb \/ eb_maxDuration eb = 0 \/ eb_maxDuration eb < 0)
    as [Hpos | [Hz | Hneg]] by lia.
  - pose proof (temp_exact eb i Ha ltac:(lia) Hi) as Hn.
    apply int64_of_float_norm; [exact Hn|].
    unfold cappedValue, int64_max. lia.
  - unfold exponentialBackoff_temp, cappedValue. rewrite Hz.
    change (float64_of_int 0) with (S754_zero false).
    assert (0 <= eb_initialDuration eb * 2 ^ i).
    { apply Z.mul_nonneg_nonneg; [lia | apply Z.pow_nonneg; lia]. }
    rewrite Z.min_l by lia.
    destruct (scaled_initial (eb_initialDuration eb) i Ha Hi) as [Hx | [Hx _]].
    + rewrite (math_Min_zero_norm _ _ Hx). reflexivity.
    + rewrite Hx. reflexivity.
  - unfold exponentialBackoff_temp, cappedValue.
    destruct (float64_of_int_neg_exact (eb_maxDuration eb) ltac:(lia))
      as (q & e & HfM & HnM).
    assert (0 <= eb_initialDuration eb * 2 ^ i).
    { apply Z.mul_nonneg_nonneg; [lia | apply Z.pow_nonneg; lia]. }
    rewrite Z.min_l by lia.
    assert (Hmin : math_Min (float64_of_int (eb_maxDuration eb))
                     (f64_mul (float64_of_int (eb_initialDuration eb))
                        (math_Exp2 (float64_of_int i)))
                   = S754_finite true q e).
    { rewrite HfM.
      destruct (scaled_initial (eb_initialDuration eb) i Ha Hi)
        as [(q' & e' & -> & _) | [-> _]]; reflexivity. }
    rewrite Hmin.
    pose proof (int64_of_float_norm _ _ HnM ltac:(unfold int64_max; lia)) as Hint.
    pose proof (is_norm_pos _ _ HnM).
    unfold int64_of_float in Hint |- *.
    destruct ((int64_min <=? trunc_mag q e) && (trunc_mag q e <=? int64_max)) eqn:Hr.
    + replace ((int64_min <=? - trunc_mag q e) && (- trunc_mag q e <=? int64_max))
        with true; [lia|].
      symmetry. apply andb_true_iff. unfold int64_min, int64_max.
      split; apply Z.leb_le; lia.
    + unfold int64_min in Hint. lia.
Qed.

Lemma wrap64_small (z : Z) : in_int64 z -> wrap64 z = z.
Proof.
  unfold in_int64, int64_min, int64_max, wrap64. intros Hz.
  rewrite Z.mod_small; lia.
Qed.

Lemma WaitTime_jitter_exact (eb : exponentialBackoff) (i u : Z) :
  eb_jitter eb = true ->
  eb_initialDuration eb <= 2 ^ 53 ->
  eb_maxDuration eb <= 2 ^ 53 ->
  0 <= i ->
  2 <= cappedValue eb i ->
  exponentialBackoff_WaitTime eb i u
  = Some (cappedValue eb i / 2 + u mod (cappedValue eb i / 2))
  /\ 1 <= cappedValue eb i / 2
  /\ 0 <= u mod (cappedValue eb i / 2) < cappedValue eb i / 2.
Proof.
  intros Hj Ha HM Hi Hc.
  assert (Hpow : 0 < 2 ^ i) by (apply Z.pow_pos_nonneg; lia).
  assert (Ha1 : 1 <= eb_initialDuration eb).
  { unfold cappedValue in Hc. nia. }
  assert (HM1 : 2 <= eb_maxDuration eb <= 2 ^ 53).
  { unfold cappedValue in Hc. lia. }
  pose proof (temp_exact eb i ltac:(lia) ltac:(lia) Hi) as Hn.
  assert (HcM : cappedValue eb i <= 2 ^ 53) by (unfold cappedValue; lia).
  assert (Hhalf : 1 <= cappedValue eb i / 2).
  { apply Z.div_le_lower_bound; lia. }
  assert (Hhalf2 : cappedValue eb i / 2 <= cappedValue eb i).
  { apply Z.div_le_upper_bound; lia. }
  pose proof (Z.mod_pos_bound u (cappedValue eb i / 2) ltac:(lia)) as Hmod.
  split; [|split; [exact Hhalf | exact Hmod]].
  unfold exponentialBackoff_WaitTime. rewrite Hj. cbn [negb]. cbv zeta.
  rewrite (int64_of_float_half_norm _ _ Hn) by (unfold int64_max; lia).
  unfold rand_Int63n.
  replace (cappedValue eb i / 2 <=? 0) with false by (symmetry; apply Z.leb_gt; lia).
  rewrite wrap64_small; [reflexivity|].
  unfold in_int64, int64_min, int64_max. lia.
Qed.

(** ** Where the jittered wait panics *)

Lemma has_sign_true_nonpos (f : float64) : has_sign true f -> nonpos f.
Proof. destruct f; cbn; auto. Qed.

Lemma trunc_mag_nonneg (m : positive) (e : Z) : 0 <= trunc_mag m e.
Proof.
  unfold trunc_mag. destruct (0 <=? e) eqn:He.
  - apply Z.leb_le in He. apply Z.mul_nonneg_nonneg; [lia | apply Z.pow_nonneg; lia].
  - apply Z.leb_gt in He. apply Z.div_pos; [lia | apply Z.pow_pos_nonneg; lia].
Qed.

Lemma int64_of_float_nonpos (f : float64) : nonpos f -> int64_of_float f <= 0.
Proof.
  destruct f as [s|s| |s m e]; cbn [nonpos int64_of_float]; intros H;
    try (unfold int64_min; lia).
  subst s. pose proof (trunc_mag_nonneg m e).
  destruct ((int64_min <=? - trunc_mag m e) && (- trunc_mag m e <=? int64_max));
    unfold int64_min; lia.
Qed.

Lemma Z_div_eucl_nonneg (a b : Z) : 0 <= a -> 0 < b -> 0 <= fst (Z.div_eucl a b).
Proof.
  intros Ha Hb. pose proof (Z_div_mod a b ltac:(lia)) as H.
  destruct (Z.div_eucl a b) as [q r]. cbn [fst]. nia.
Qed.

Lemma SFdiv_core_nonneg (m1 m2 : positive) (e1 e2 : Z) :
  0 <= fst (fst (SFdiv_core_binary 53 1024 (Zpos m1) e1 (Zpos m2) e2)).
Proof.
  unfold SFdiv_core_binary. cbv zeta.
  match goal with
  | |- context [Z.div_eucl ?a ?b] =>
      pose proof (Z_div_eucl_nonneg a b) as H; destruct (Z.div_eucl a b) as [q r]
  end.
  cbn [fst] in *. apply H; [|lia].
  match goal with
  | |- 0 <= match ?s with _ => _ end => destruct s
  end; try lia.
  apply Z.shiftl_nonneg. lia.
Qed.

Lemma f64_div_two_nonpos (f : float64) : nonpos f -> nonpos (f64_div f f64_two).
Proof.
  destruct f as [s|s| |s m e]; cbn [nonpos]; intros H; try exact I.
  - subst s. reflexivity.
  - subst s. unfold f64_div, f64_two, SFdiv.
    pose proof (SFdiv_core_nonneg m 4503599627370496 e (-51)) as Hq.
    destruct (SFdiv_core_binary 53 1024 (Zpos m) e (Zpos 4503599627370496) (-51))
      as [[mz ez] lz].
    cbn [fst] in Hq. cbn [xorb].
    apply has_sign_true_nonpos, binary_round_aux_sign. exact Hq.
Qed.

Lemma half_of_one : int64_of_float (f64_div f64_one f64_two) = 0.
Proof. vm_compute. reflexivity. Qed.

Lemma math_Exp2_cases (i : Z) :
  0 <= i ->
  math_Exp2 (float64_of_int i) = f64_pow2 i
  \/ math_Exp2 (float64_of_int i) = S754_infinity false.
Proof.
  intros Hi. destruct (Z_le_gt_dec i 1023).
  - left. apply math_Exp2_small. lia.
  - right. apply math_Exp2_large. lia.
Qed.

Lemma float64_of_int_pos_from (z : Z) :
  0 < z -> pos_from (Zdigits2 z - 53) (float64_of_int z).
Proof.
  intros Hz. destruct (float64_of_int_pos z Hz) as (m & e & Hf & Hm & He & _).
  rewrite Hf. destruct (e <=? 971); [right | left; reflexivity].
  exists m, e. auto.
Qed.

Lemma scaled_nonpos (a i : Z) :
  a <= 0 -> 0 <= i ->
  nonpos (f64_mul (float64_of_int a) (math_Exp2 (float64_of_int i))).
Proof.
  intros Ha Hi.
  assert (a = 0 \/ a < 0) as [-> | Hneg] by lia.
  - destruct (math_Exp2_cases i Hi) as [-> | ->]; exact I.
  - pose proof (float64_of_int_neg a Hneg) as Hs.
    destruct (float64_of_int a) as [s|s| |s m e]; cbn [has_sign] in Hs;
      try contradiction; subst s;
      destruct (math_Exp2_cases i Hi) as [-> | ->];
      unfold f64_mul, f64_pow2, SFmul; cbn [xorb nonpos]; try reflexivity; try exact I.
    apply has_sign_true_nonpos, binary_round_aux_sign. lia.
Qed.

Lemma scaled_pos_from (a i : Z) :
  0 < a -> 0 <= i ->
  pos_from (Zdigits2 a - 53 + i)
    (f64_mul (float64_of_int a) (math_Exp2 (float64_of_int i))).
Proof.
  intros Ha Hi.
  pose proof (Zdigits2_lower a 0 ltac:(lia) ltac:(cbn; lia)) as Hd.
  destruct (float64_of_int_pos_from a Ha) as [-> | (m & e & -> & Hm & He)];
    destruct (math_Exp2_cases i Hi) as [-> | ->];
    try (left; reflexivity).
  unfold f64_mul, f64_pow2, SFmul. cbn [xorb].
  rewrite Pos2Z.inj_mul. change (Zpos 4503599627370496) with (2 ^ 52).
  rewrite binary_round_aux_exact by (try exact Hm; lia).
  replace (e + (i - 52) + 52) with (e + i) by lia.
  destruct (e + i <=? 971); [right | left; reflexivity].
  exists m, (e + i). repeat split; [exact Hm | lia].
Qed.

Lemma math_Min_nonpos_nonpos (x y : float64) :
  nonpos x -> nonpos y -> nonpos (math_Min x y).
Proof.
  intros Hx Hy. unfold math_Min.
  destruct (f64_is_inf x (-1) || f64_is_inf y (-1)); [reflexivity|].
  destruct (f64_is_nan x || f64_is_nan y); [exact I|].
  destruct (f64_is_zero x && f64_eq x y); [destruct (f64_signbit x); assumption|].
  destruct (f64_lt x y); assumption.
Qed.

Lemma math_Min_nonpos_pos (lo : Z) (x y : float64) :
  nonpos x -> pos_from lo y -> nonpos (math_Min x y).
Proof.
  intros Hx [-> | (m & e & -> & _)];
    destruct x as [s|s| |s mx ex]; cbn [nonpos] in Hx; try subst s;
    try destruct s; cbn; auto.
Qed.

Lemma math_Min_pos_nonpos (lo : Z) (x y : float64) :
  pos_from lo x -> nonpos y -> nonpos (math_Min x y).
Proof.
  intros [-> | (m & e & -> & _)] Hy;
    destruct y as [s|s| |s my ey]; cbn [nonpos] in Hy; try subst s;
    try destruct s; cbn; auto.
Qed.

Lemma math_Min_one_nonpos (y : float64) :
  nonpos y -> nonpos (math_Min f64_one y).
Proof.
  intros Hy. destruct y as [s|s| |s my ey]; cbn [nonpos] in Hy; try subst s;
    try destruct s; cbn; auto.
Qed.

Lemma SFltb_one_pos (m : positive) (e : Z) :
  Zpos (digits2_pos m) = 53 -> -52 <= e ->
  f64_lt f64_one (S754_finite false m e) = false ->
  S754_finite false m e = f64_one.
Proof.
  intros Hm He. pose proof (norm_mantissa_bounds m Hm) as [Hlo _].
  unfold f64_lt, SFltb, f64_one. cbn [SFcompare].
  destruct (Z.compare_spec (-52) e) as [<- | Hlt | Hgt]; [|discriminate|lia].
  change (Pos.compare_cont Eq 4503599627370496 m) with (4503599627370496 ?= Zpos m).
  destruct (Z.compare_spec 4503599627370496 (Zpos m)) as [E | |]; try discriminate.
  - intros _. injection E as <-. reflexivity.
  - change (2 ^ 52) with 4503599627370496 in Hlo. lia.
Qed.

Lemma math_Min_one_pos (y : float64) :
  pos_from (-52) y -> math_Min f64_one y = f64_one.
Proof.
  intros [-> | (m & e & -> & Hm & He)]; [reflexivity|].
  unfold math_Min. cbn [f64_is_inf f64_is_nan f64_is_zero f64_one orb andb].
  fold f64_one.
  destruct (f64_lt f64_one (S754_finite false m e)) eqn:Hlt; [reflexivity|].
  apply SFltb_one_pos; assumption.
Qed.

Lemma math_Min_pos_one (x : float64) :
  pos_from (-51) x -> math_Min x f64_one = f64_one.
Proof.
  intros [-> | (m & e & -> & Hm & He)]; [reflexivity|].
  unfold math_Min, f64_one, f64_lt, SFltb.
  cbn [f64_is_inf f64_is_nan f64_is_zero orb andb SFcompare].
  destruct (Z.compare_spec e (-52)); first [reflexivity | lia].
Qed.

Lemma low_half (f : float64) : low f -> int64_of_float (f64_div f f64_two) <= 0.
Proof.
  intros [H | ->].
  - apply int64_of_float_nonpos, f64_div_two_nonpos, H.
  - rewrite half_of_one. lia.
Qed.

Lemma pos_from_weaken (lo lo' : Z) (f : float64) :
  lo' <= lo -> pos_from lo f -> pos_from lo' f.
Proof.
  intros Hle [-> | (m & e & -> & Hm & He)]; [left; reflexivity | right].
  exists m, e. repeat split; [exact Hm | lia].
Qed.

Lemma float64_of_int_le_1 (z : Z) :
  z <= 1 -> nonpos (float64_of_int z) \/ float64_of_int z = f64_one.
Proof.
  intros Hz. assert (z = 1 \/ z = 0 \/ z < 0) as [-> | [-> | Hneg]] by lia.
  - right. reflexivity.
  - left. exact I.
  - left. apply has_sign_true_nonpos, float64_of_int_neg, Hneg.
Qed.

Lemma temp_low (eb : exponentialBackoff) (i : Z) :
  0 <= i -> cappedValue eb i < 2 -> low (exponentialBackoff_temp eb i).
Proof.
  intros Hi Hc. unfold exponentialBackoff_temp, cappedValue in *.
  set (a := eb_initialDuration eb) in *. set (M := eb_maxDuration eb) in *.
  assert (Hpow : 0 < 2 ^ i) by (apply Z.pow_pos_nonneg; lia).
  destruct (Z_le_gt_dec a 0) as [Ha | Ha].
  - (* the scaled initial duration is not positive *)
    pose proof (scaled_nonpos a i Ha Hi) as Hx.
    destruct (Z_le_gt_dec M 1) as [HM | HM].
    + destruct (float64_of_int_le_1 M HM) as [HfM | ->].
      * left. apply math_Min_nonpos_nonpos; assumption.
      * left. apply math_Min_one_nonpos, Hx.
    + left. eapply math_Min_pos_nonpos; [|exact Hx].
      apply float64_of_int_pos_from. lia.
  - (* the scaled initial duration is positive *)
    pose proof (scaled_pos_from a i ltac:(lia) Hi) as Hx.
    pose proof (Zdigits2_lower a 0 ltac:(lia) ltac:(cbn; lia)) as Hda.
    destruct (Z_le_gt_dec M 1) as [HM | HM].
    + destruct (float64_of_int_le_1 M HM) as [HfM | ->].
      * left. eapply math_Min_nonpos_pos; eassumption.
      * right. apply math_Min_one_pos.
        eapply pos_from_weaken; [|exact Hx]. lia.
    + (* the cap is at least 2, so the scaled value is 1 *)
      assert (a = 1 /\ i = 0) as [Ea Ei].
      { assert (H2 : a * 2 ^ i < 2) by lia.
        assert (Ea : a = 1) by nia. split; [exact Ea|].
        rewrite Ea in H2.
        destruct (Z.eq_dec i 0) as [|Hne]; [assumption|exfalso].
        assert (2 ^ 1 <= 2 ^ i) by (apply Z.pow_le_mono_r; lia).
        change (2 ^ 1) with 2 in *. lia. }
      rewrite Ea, Ei.
      change (f64_mul (float64_of_int 1) (math_Exp2 (float64_of_int 0))) with f64_one.
      right. apply math_Min_pos_one.
      eapply pos_from_weaken; [|apply float64_of_int_pos_from; lia].
      pose proof (Zdigits2_lower M 1 ltac:(lia) ltac:(change (2 ^ 1) with 2; lia)). lia.
Qed.

Lemma WaitTime_jitter_panics (eb : exponentialBackoff) (i u : Z) :
  eb_jitter eb = true -> 0 <= i -> cappedValue eb i < 2 ->
  exponentialBackoff_WaitTime eb i u = None.
Proof.
  intros Hj Hi Hc. unfold exponentialBackoff_WaitTime. rewrite Hj. cbn [negb]. cbv zeta.
  pose proof (low_half _ (temp_low eb i Hi Hc)) as Hn.
  unfold rand_Int63n.
  replace (int64_of_float (f64_div (exponentialBackoff_temp eb i) f64_two) <=? 0)
    with true by (symmetry; apply Z.leb_le; exact Hn).
  reflexivity.
Qed.

(* ----------------------------------------------------------------- *)
(** ** The backoff strategies *)

(** C5.  With jitter, the exponential backoff can return a wait above
    [maxDuration].  It does so when [float64(maxDuration)] rounds up: the
    cap [2^54 + 6] becomes [2^54 + 8], its half is [2^53 + 4], and the
    largest draw gives [2^54 + 7]. *)
Theorem jittered_wait_can_exceed_cap :
  exists (eb : exponentialBackoff) (i u d : Z),
    eb_jitter eb = true
    /\ in_int64 (eb_initialDuration eb) /\ in_int64 (eb_maxDuration eb)
    /\ 0 <= i /\ 0 <= u < 2 ^ 63
    /\ exponentialBackoff_WaitTime eb i u = Some d
    /\ eb_maxDuration eb < d.
Proof.
  exists {| eb_initialDuration := 2 ^ 62; eb_maxDuration := 2 ^ 54 + 6;
            eb_jitter := true |}, 0, (2 ^ 53 + 3), (2 ^ 54 + 7).
  cbn [eb_jitter eb_initialDuration eb_maxDuration].
  unfold in_int64, int64_min, int64_max.
  split; [reflexivity|]. split; [lia|]. split; [lia|]. split; [lia|].
  split; [lia|]. split; [vm_compute; reflexivity | lia].
Qed.

(** Where the cap is held exactly by a float64 the jittered wait stays
    strictly below it: the draw is below the half, and twice the half is
    at most the clamped value. *)
Lemma jittered_wait_below_exact_cap (eb : exponentialBackoff) (i u d : Z) :
  eb_jitter eb = true ->
  eb_initialDuration eb <= 2 ^ 53 ->
  eb_maxDuration eb <= 2 ^ 53 ->
  0 <= i ->
  exponentialBackoff_WaitTime eb i u = Some d ->
  d < eb_maxDuration eb.
Proof.
  intros Hj Ha HM Hi Hw.
  destruct (Z_lt_le_dec (cappedValue eb i) 2) as [Hlt | Hge].
  - rewrite WaitTime_jitter_panics in Hw by assumption. discriminate.
  - destruct (WaitTime_jitter_exact eb i u Hj Ha HM Hi Hge) as (Hw' & Hh & Hm).
    rewrite Hw' in Hw. injection Hw as <-.
    assert (2 * (cappedValue eb i / 2) <= cappedValue eb i)
      by (apply Z.mul_div_le; lia).
    unfold cappedValue in *. lia.
Qed.

(** C6, as the code has it.  Without jitter, for an initial duration in
    [1, 2^53] and a cap in [-2^53, 2^53] (integers that float64 holds
    exactly) and attempt indices [0 <= i <= j]: the wait is
    [min(maxDuration, initialDuration * 2^i)] whatever the response, it
    does not decrease from [i] to [j], and once it is the cap it stays
    the cap. *)
Theorem exponential_wait_without_jitter (a M i j u u' : Z) (resp resp' : Response) :
  1 <= a <= 2 ^ 53 ->
  - 2 ^ 53 <= M <= 2 ^ 53 ->
  0 <= i <= j ->
  WaitTime (NewExponentialBackoff a M false) i resp u = Some (Z.min M (a * 2 ^ i))
  /\ WaitTime (NewExponentialBackoff a M false) j resp' u' = Some (Z.min M (a * 2 ^ j))
  /\ Z.min M (a * 2 ^ i) <= Z.min M (a * 2 ^ j)
  /\ (Z.min M (a * 2 ^ i) = M -> Z.min M (a * 2 ^ j) = M).
Proof.
  intros Ha HM Hij.
  set (eb := {| eb_initialDuration := a; eb_maxDuration := M; eb_jitter := false |}).
  pose proof (WaitTime_no_jitter_exact eb i u eq_refl Ha HM ltac:(lia)) as Hi.
  pose proof (WaitTime_no_jitter_exact eb j u' eq_refl Ha HM ltac:(lia)) as Hj.
  pose proof (cappedValue_mono eb i j ltac:(cbn; lia) Hij) as [Hmono Hcap].
  repeat split; assumption.
Qed.

Lemma exponential_wait_without_jitter_witness :
  WaitTime (NewExponentialBackoff 1000000000 30000000000 false) 3 newResponse 0
  = Some 8000000000
  /\ WaitTime (NewExponentialBackoff 1000000000 30000000000 false) 5 newResponse 0
     = Some 30000000000.
Proof.
  destruct (exponential_wait_without_jitter 1000000000 30000000000 3 5 0 0
              newResponse newResponse) as (H3 & H5 & _).
  - lia.
  - lia.
  - lia.
  - split; [exact H3 | exact H5].
Defined.

(** C6 as stated does not hold outside that range: an initial duration
    of [2^53 + 1] is rounded to [2^53], and a negative initial duration
    makes the waits decrease. *)
Lemma exponential_wait_without_jitter_counterexample :
  (WaitTime (NewExponentialBackoff (2 ^ 53 + 1) (2 ^ 62) false) 0 newResponse 0
   = Some (2 ^ 53)
   /\ Z.min (2 ^ 62) ((2 ^ 53 + 1) * 2 ^ 0) = 2 ^ 53 + 1)
  /\ (WaitTime (NewExponentialBackoff (-1) 10 false) 0 newResponse 0 = Some (-1)
      /\ WaitTime (NewExponentialBackoff (-1) 10 false) 1 newResponse 0 = Some (-2)).
Proof.
  repeat split; vm_compute; reflexivity.
Qed.

(** C7, as the code has it.  With jitter, for durations of at most
    [2^53] and an attempt index [i >= 0] at which the clamped value
    [min(maxDuration, initialDuration * 2^i)] is at least 2: the wait is
    returned and lies in [[half, half * 2)] for [half] the clamped value
    halved and truncated, so it is at least that half. *)
Theorem exponential_wait_with_jitter (a M i u : Z) (resp : Response) :
  a <= 2 ^ 53 ->
  M <= 2 ^ 53 ->
  0 <= i ->
  2 <= Z.min M (a * 2 ^ i) ->
  exists d,
    WaitTime (NewExponentialBackoff a M true) i resp u = Some d
    /\ Z.min M (a * 2 ^ i) / 2 <= d < Z.min M (a * 2 ^ i) / 2 * 2.
Proof.
  intros Ha HM Hi Hc.
  set (eb := {| eb_initialDuration := a; eb_maxDuration := M; eb_jitter := true |}).
  destruct (WaitTime_jitter_exact eb i u eq_refl Ha HM Hi Hc) as (Hw & Hh & Hm).
  exists (cappedValue eb i / 2 + u mod (cappedValue eb i / 2)).
  split; [exact Hw|]. unfold cappedValue in *. cbn in *. lia.
Qed.

Lemma exponential_wait_with_jitter_witness :
  exists d,
    WaitTime (NewExponentialBackoff 1000000000 30000000000 true) 5 newResponse 7
    = Some d
    /\ 15000000000 <= d < 30000000000.
Proof.
  destruct (exponential_wait_with_jitter 1000000000 30000000000 5 7 newResponse)
    as (d & Hw & Hd).
  - lia.
  - lia.
  - lia.
  - vm_compute. discriminate.
  - exists d. split; [exact Hw|].
    change (Z.min 30000000000 (1000000000 * 2 ^ 5) / 2) with 15000000000 in Hd. lia.
Defined.

(** C7 as stated does not hold in two ways: an initial duration of
    [2^54 + 2] is rounded to [2^54], so the smallest draw gives [2^53],
    below the half [2^53 + 1] of the clamped value; and no value is
    returned at all when the half is zero. *)
Lemma exponential_wait_with_jitter_counterexample :
  (WaitTime (NewExponentialBackoff (2 ^ 54 + 2) (2 ^ 62) true) 0 newResponse 0
   = Some (2 ^ 53)
   /\ 2 ^ 53 < Z.min (2 ^ 62) ((2 ^ 54 + 2) * 2 ^ 0) / 2)
  /\ WaitTime (NewExponentialBackoff 1 1 true) 0 newResponse 0 = None.
Proof.
  repeat split; vm_compute; reflexivity.
Qed.

(** C10.  With jitter, [WaitTime] is partial.  The exponential backoff
    panics at every attempt index [i >= 0] whose clamped value
    [min(maxDuration, initialDuration * 2^i)] is below 2, so in particular
    whenever the initial duration is not positive; the constant backoff
    panics whenever its initial duration is not positive.  In both the
    bound handed to [rand.Int63n] is not positive. *)
Theorem jittered_WaitTime_panics :
  (forall (eb : exponentialBackoff) (i u : Z),
      eb_jitter eb = true -> 0 <= i -> cappedValue eb i < 2 ->
      int64_of_float (f64_div (exponentialBackoff_temp eb i) f64_two) <= 0
      /\ exponentialBackoff_WaitTime eb i u = None)
  /\ (forall (eb : exponentialBackoff) (i u : Z),
         eb_jitter eb = true -> 0 <= i -> eb_initialDuration eb <= 0 ->
         exponentialBackoff_WaitTime eb i u = None)
  /\ (forall (cb : constantBackoff) (i u : Z),
         cb_jitter cb = true -> cb_initialDuration cb <= 0 ->
         rand_Int63n u (cb_initialDuration cb) = None
         /\ constantBackoff_WaitTime cb i u = None).
Proof.
  split; [|split].
  - intros eb i u Hj Hi Hc. split.
    + apply low_half, temp_low; assumption.
    + apply WaitTime_jitter_panics; assumption.
  - intros eb i u Hj Hi Ha. apply WaitTime_jitter_panics; try assumption.
    unfold cappedValue.
    assert (0 < 2 ^ i) by (apply Z.pow_pos_nonneg; lia).
    assert (eb_initialDuration eb * 2 ^ i <= 0) by nia. lia.
  - intros cb i u Hj Ha.
    assert (Hr : rand_Int63n u (cb_initialDuration cb) = None).
    { unfold rand_Int63n.
      replace (cb_initialDuration cb <=? 0) with true by (symmetry; apply Z.leb_le; lia).
      reflexivity. }
    split; [exact Hr|].
    unfold constantBackoff_WaitTime. rewrite Hj, Hr. reflexivity.
Qed.

(* ================================================================= *)
(** * Part III: further properties *)
(* ================================================================= *)

(** ** More on the execution loop *)

Section LoopMore.

Context {W : Type} {host : Host W}.

(** An iteration that does not go on to wait returns the attempt as it is. *)
Lemma retryLoop_stops (fuel : nat) (c : Client W) (r : Retrier) (i : Z)
  (req : Request) (resp : Response) (s : State W) :
  i < maxAttempts r ->
  is_some (ctx_Err (ctx req) (snd (http_Do c req (world s)))) = true
  \/ maxAttempts r - 1 <= i
  \/ triggers r = [] ->
  retryLoop (S fuel) c r i req resp s
  = (Ok (req, set_result resp (fst (do_result (fst (http_Do c req (world s)))))
                 (snd (do_result (fst (http_Do c req (world s)))))),
     {| world := snd (http_Do c req (world s));
        log := log s ++ [EvAttempt req (fst (http_Do c req (world s)))] |}).
Proof.
  intros Hi Hstop. rewrite retryLoop_step by exact Hi. cbn zeta. cbn [world].
  destruct Hstop as [Hc | [Hl | Ht]].
  - rewrite Hc. reflexivity.
  - replace (maxAttempts r - 1 <=? i) with true by (symmetry; apply Z.leb_le; lia).
    rewrite orb_true_r. reflexivity.
  - rewrite on_eq_on_loop, Ht. cbn [on_loop negb]. rewrite orb_true_r. reflexivity.
Qed.

Lemma attempts_snoc_other (l : list event) (e : event) :
  is_attempt e = false -> attempts (l ++ [e]) = attempts l.
Proof.
  intros He. rewrite attempts_app. unfold attempts at 2. cbn [filter].
  rewrite He. cbn. lia.
Qed.

(** The loop never makes more attempts than the indices left. *)
Lemma retryLoop_attempts_bound (c : Client W) (r : Retrier) :
  forall (fuel : nat) (i : Z) (req : Request) (resp : Response) (s s' : State W)
         (out : outcome (Request * Response)),
    retryLoop fuel c r i req resp s = (out, s') ->
    (attempts (log s') <= attempts (log s) + Z.to_nat (maxAttempts r - i))%nat.
Proof.
  induction fuel as [|fuel IH]; intros i req resp s s' out Hrun.
  - cbn in Hrun. injection Hrun as <- <-. lia.
  - destruct (Z.ltb_spec i (maxAttempts r)) as [Hi|Hi].
    + rewrite retryLoop_step in Hrun by exact Hi. cbn zeta in Hrun.
      set (s1 := {| world := snd (http_Do c req (world s));
                    log := log s ++ [EvAttempt req (fst (http_Do c req (world s)))] |})
        in *.
      assert (H1 : attempts (log s1) = S (attempts (log s))).
      { cbn [log s1]. rewrite attempts_app. cbn. lia. }
      assert (Hd : (attempts (log s1)
                    <= attempts (log s) + Z.to_nat (maxAttempts r - i))%nat).
      { rewrite H1. assert (1 <= Z.to_nat (maxAttempts r - i))%nat by lia. lia. }
      destruct (_ || _ || _) eqn:Hstop.
      { injection Hrun as <- <-. exact Hd. }
      destruct (backoff r) as [b|]; [|injection Hrun as <- <-; exact Hd].
      destruct (WaitTime b i _ _) as [d|]; [|injection Hrun as <- <-; exact Hd].
      destruct (after_or_done d _ _) as [[|] w2].
      * apply IH in Hrun. cbn [log] in Hrun.
        rewrite attempts_snoc_other in Hrun by reflexivity.
        apply orb_false_iff in Hstop. destruct Hstop as [Hstop _].
        apply orb_false_iff in Hstop. destruct Hstop as [_ Hstop].
        apply Z.leb_gt in Hstop. lia.
      * injection Hrun as <- <-. cbn [log].
        rewrite attempts_snoc_other by reflexivity. exact Hd.
    + apply Z.ltb_ge in Hi. cbn [retryLoop] in Hrun. rewrite Hi in Hrun.
      injection Hrun as <- <-. lia.
Qed.

(** The events of a run that starts with enough fuel. *)
Lemma retryLoop_loop_trace (c : Client W) (r : Retrier) :
  forall (fuel : nat) (i : Z) (req : Request) (resp : Response) (s s' : State W)
         (out : outcome (Request * Response)),
    (Z.to_nat (maxAttempts r - i) <= fuel)%nat ->
    retryLoop fuel c r i req resp s = (out, s') ->
    exists evs,
      log s' = log s ++ evs /\ loop_trace evs /\ (i < maxAttempts r -> evs <> []).
Proof.
  induction fuel as [|fuel IH]; intros i req resp s s' out Hfuel Hrun.
  - cbn in Hrun. injection Hrun as <- <-. exists []. rewrite app_nil_r.
    split; [reflexivity|]. split; [constructor | lia].
  - destruct (Z.ltb_spec i (maxAttempts r)) as [Hi|Hi].
    + rewrite retryLoop_step in Hrun by exact Hi. cbn zeta in Hrun.
      set (res := fst (http_Do c req (world s))) in *.
      assert (Hone : exists evs,
                 log s ++ [EvAttempt req res] = log s ++ evs /\ loop_trace evs
                 /\ (i < maxAttempts r -> evs <> [])).
      { exists [EvAttempt req res]. split; [reflexivity|].
        split; [constructor | discriminate]. }
      destruct (_ || _ || _) eqn:Hstop.
      { injection Hrun as <- <-. exact Hone. }
      destruct (backoff r) as [b|]; [|injection Hrun as <- <-; exact Hone].
      destruct (WaitTime b i _ _) as [d|]; [|injection Hrun as <- <-; exact Hone].
      apply orb_false_iff in Hstop. destruct Hstop as [Hstop _].
      apply orb_false_iff in Hstop. destruct Hstop as [_ Hstop].
      apply Z.leb_gt in Hstop.
      destruct (after_or_done d _ _) as [[|] w2].
      * apply IH in Hrun; [|lia].
        destruct Hrun as (evs & Hlog & Htr & Hne). cbn [log] in Hlog.
        exists (EvAttempt req res :: EvSleep d :: evs).
        split; [rewrite Hlog, <- !app_assoc; reflexivity|].
        split; [|discriminate].
        constructor; [exact Htr | apply Hne; lia].
      * injection Hrun as <- <-. cbn [log].
        eexists [EvAttempt req res; EvCtxDone _].
        split; [rewrite <- app_assoc; reflexivity|].
        split; [constructor | discriminate].
    + apply Z.ltb_ge in Hi. cbn [retryLoop] in Hrun. rewrite Hi in Hrun.
      injection Hrun as <- <-. exists []. rewrite app_nil_r.
      split; [reflexivity|]. split; [constructor | lia].
Qed.


Lemma sleeps_app (l1 l2 : list event) : sleeps (l1 ++ l2) = sleeps l1 ++ sleeps l2.
Proof.
  induction l1 as [|[] l1 IH]; cbn; rewrite ?IH; reflexivity.
Qed.

(** With a trigger that always fires and a context that never does, the
    waits of the loop are the backoff's values at the indices in order. *)
Lemma retryLoop_sleeps (c : Client W) (N : Z) (bk : Backoff)
  (t : Response -> bool) (cx : Context) (f : Z -> Z) :
  (forall r, t r = true) ->
  (forall w, ctx_Err cx w = None) ->
  (forall d w, fst (after_or_done d cx w) = true) ->
  (forall i r u, 0 <= i < N - 1 -> WaitTime bk i r u = Some (f i)) ->
  forall (fuel : nat) (i : Z) (req : Request) (resp : Response) (s : State W),
    0 <= i < N -> fuel = Z.to_nat (N - i) -> ctx req = cx ->
    exists out s' evs,
      retryLoop fuel c (NewRetrier N (Some bk) [t]) i req resp s = (out, s')
      /\ log s' = log s ++ evs
      /\ sleeps evs = map f (Zrange i (Z.to_nat (N - 1 - i))).
Proof.
  intros Ht Hctx Hsel Hbk.
  induction fuel as [|fuel IH]; intros i req resp s Hi Hfuel Hcx; [lia|].
  rewrite retryLoop_step by (cbn [maxAttempts NewRetrier]; lia).
  cbn zeta. cbn [maxAttempts NewRetrier backoff world log].
  rewrite Hcx, Hctx. cbn [is_some orb].
  set (res := fst (http_Do c req (world s))).
  set (resp1 := set_result resp (fst (do_result res)) (snd (do_result res))).
  destruct (N - 1 <=? i) eqn:Hlast.
  - apply Z.leb_le in Hlast. cbn [orb].
    do 2 eexists. exists [EvAttempt req res].
    split; [reflexivity|]. split; [reflexivity|].
    replace (Z.to_nat (N - 1 - i)) with 0%nat by lia. reflexivity.
  - apply Z.leb_gt in Hlast. cbn [orb].
    rewrite on_eq_on_loop. cbn [triggers NewRetrier on_loop]. rewrite Ht. cbn [negb].
    rewrite Hbk by lia.
    rewrite ctx_after_GetBody, Hcx.
    pose proof (Hsel (f i) (snd (http_Do c req (world s)))) as Hf.
    destruct (after_or_done (f i) cx (snd (http_Do c req (world s)))) as [fired w2].
    cbn [fst] in Hf. subst fired.
    edestruct (IH (i + 1)) as (out & s' & evs & Hrun & Hlog & Hsl).
    + lia.
    + lia.
    + rewrite ctx_after_GetBody. exact Hcx.
    + exists out, s', (EvAttempt req res :: EvSleep (f i) :: evs).
      split; [exact Hrun|]. split.
      * rewrite Hlog. cbn [log]. rewrite <- !app_assoc. reflexivity.
      * cbn [sleeps]. rewrite Hsl.
        replace (Z.to_nat (N - 1 - i)) with (S (Z.to_nat (N - 1 - (i + 1)))) by lia.
        reflexivity.
Qed.

End LoopMore.

(** ** More on the pipeline around the loop *)

Section PipelineMore.

Context {W : Type} {host : Host W}.

(** Admission lets the request through untouched, or waits once. *)
Lemma admission_cases (c : Client W) (req : Request) (s : State W) :
  admission c req s = (Ok None, s)
  \/ exists l,
       limiter c = Some l /\ Allow l req = false
       /\ admission c req s
          = (Ok (fst (Wait l (ctx req) (world s))),
             {| world := snd (Wait l (ctx req) (world s));
                log := log s ++ [EvLimiterWait (fst (Wait l (ctx req) (world s)))] |}).
Proof.
  unfold admission. destruct (limiter c) as [l|]; [|left; reflexivity].
  destruct (Allow l req) eqn:Ha; cbn [negb]; [left; reflexivity|].
  right. exists l. split; [reflexivity|]. split; [exact Ha|].
  unfold bind, lift, emit, ret.
  destruct (Wait l (ctx req) (world s)) as [e w]. reflexivity.
Qed.

(** [doWithRetry] stops on a failed drain, or goes on to admission and
    the loop with a request that differs from the given one in its body
    fields and retrier only. *)
Lemma doWithRetry_cases (c : Client W) (req : Request) (resp : Response) (s : State W) :
  (exists e,
      doWithRetry c req resp s = (Ok (req, set_err resp (Some e)), s)
      /\ snd (body_bytes (Body req)) = Some e
      /\ GetBody req = None
      /\ 1 < maxAttempts (effective_retrier req))
  \/ (exists req',
         doWithRetry c req resp s
         = admissionAndLoop c (effective_retrier req) req' resp s
         /\ ctx req' = ctx req /\ URL req' = URL req /\ Method req' = Method req).
Proof.
  unfold doWithRetry, effective_retrier.
  destruct (retrier req) as [r|].
  - destruct (1 <? maxAttempts r) eqn:Hlt.
    + destruct (Body req) as [b|] eqn:Hb.
      * destruct (GetBody req) as [g|] eqn:Hg.
        -- right. exists req. repeat split.
        -- unfold drainBody. destruct (read_all b) as [data [e|]] eqn:Hr.
           ++ left. exists e. cbn [body_bytes]. rewrite Hr.
              apply Z.ltb_lt in Hlt. repeat split. exact Hlt.
           ++ right. eexists. split; [reflexivity|].
              unfold SetBody. cbn -[Z.eqb len64].
              destruct (len64 data =? 0); repeat split.
      * right. exists req. repeat split.
    + right. exists req. repeat split.
  - right. eexists. split; [reflexivity|]. repeat split.
Qed.

(** X1.  [Do] never makes more transport attempts than the retrier's
    [maxAttempts] (one without a retrier), whatever the transport, the
    triggers, the limiter, the hooks and the context do. *)
Theorem Do_attempts_bound (c : Client W) (req : Request) (s s' : State W)
  (out : outcome Response) :
  Do c req s = (out, s') ->
  Z.of_nat (attempts (log s'))
  <= Z.of_nat (attempts (log s))
     + Z.max 0 (maxAttempts (effective_retrier (fst (onBeforeRequest c req)))).
Proof.
  unfold Do. destruct (onBeforeRequest c req) as [req1 [e|]]; cbn [fst].
  - intros [= <- <-]. lia.
  - unfold bind at 1.
    destruct (doWithRetry c req1 newResponse s) as [o s1] eqn:Hrun.
    assert (Hb : Z.of_nat (attempts (log s1))
                 <= Z.of_nat (attempts (log s))
                    + Z.max 0 (maxAttempts (effective_retrier req1))).
    { destruct (doWithRetry_cases c req1 newResponse s)
        as [(e & He & _) | (req' & He & _)]; rewrite He in Hrun.
      - injection Hrun as <- <-. lia.
      - unfold admissionAndLoop, bind in Hrun.
        destruct (admission_cases c req' s) as [Ha | (l & _ & _ & Ha)];
          rewrite Ha in Hrun.
        + apply retryLoop_attempts_bound in Hrun. lia.
        + destruct (fst (Wait l (ctx req') (world s))) as [e|].
          * injection Hrun as <- <-. cbn [log].
            rewrite attempts_snoc_other by reflexivity. lia.
          * apply retryLoop_attempts_bound in Hrun. cbn [log] in Hrun.
            rewrite attempts_snoc_other in Hrun by reflexivity. lia. }
    destruct o as [[req2 resp2]|]; intros [= <- <-]; exact Hb.
Qed.

(** X2.  The events of [doWithRetry]: at most one wait on the limiter, and
    that before anything else; then attempts with exactly one completed
    backoff wait between two of them.  The limiter is not asked again
    before a retry. *)
Theorem doWithRetry_trace (c : Client W) (req : Request) (resp : Response)
  (s s' : State W) (out : outcome (Request * Response)) :
  doWithRetry c req resp s = (out, s') ->
  exists pre evs,
    log s' = log s ++ pre ++ evs
    /\ (pre = [] \/ exists e, pre = [EvLimiterWait e])
    /\ loop_trace evs.
Proof.
  intros Hrun.
  destruct (doWithRetry_cases c req resp s) as [(e & He & _) | (req' & He & _)];
    rewrite He in Hrun.
  - injection Hrun as <- <-. exists [], []. rewrite app_nil_r.
    split; [reflexivity|]. split; [left; reflexivity | constructor].
  - unfold admissionAndLoop, bind in Hrun.
    destruct (admission_cases c req' s) as [Ha | (l & _ & _ & Ha)];
      rewrite Ha in Hrun.
    + apply retryLoop_loop_trace in Hrun; [|lia].
      destruct Hrun as (evs & Hlog & Htr & _).
      exists [], evs. split; [exact Hlog|]. split; [left; reflexivity | exact Htr].
    + destruct (fst (Wait l (ctx req') (world s))) as [e|] eqn:Hw.
      * injection Hrun as <- <-. cbn [log].
        exists [EvLimiterWait (Some e)], []. rewrite app_nil_r.
        split; [reflexivity|]. split; [right; eexists; reflexivity | constructor].
      * apply retryLoop_loop_trace in Hrun; [|lia].
        destruct Hrun as (evs & Hlog & Htr & _). cbn [log] in Hlog.
        exists [EvLimiterWait None], evs.
        split; [rewrite Hlog, <- app_assoc; reflexivity|].
        split; [right; eexists; reflexivity | exact Htr].
Qed.


(** X4.  Without triggers (and so without a retrier at all) the request is
    attempted exactly once, when [maxAttempts] allows one attempt: the
    response is returned as the attempt left it, a transport error
    included, and the backoff is never consulted. *)
Theorem no_trigger_single_attempt (c : Client W) (req : Request) (resp : Response)
  (s : State W) :
  triggers (effective_retrier req) = [] ->
  1 <= maxAttempts (effective_retrier req) ->
  limiter c = None ->
  snd (body_bytes (Body req)) = None ->
  exists req',
    ctx req' = ctx req
    /\ doWithRetry c req resp s
       = (Ok (req',
              set_result resp
                (fst (do_result (fst (http_Do c req' (world s)))))
                (snd (do_result (fst (http_Do c req' (world s)))))),
          {| world := snd (http_Do c req' (world s));
             log := log s ++ [EvAttempt req' (fst (http_Do c req' (world s)))] |}).
Proof.
  intros Ht Hmax Hl Hbody.
  destruct (doWithRetry_cases c req resp s)
    as [(e' & _ & He' & _) | (req' & He & Hctx & _)]; [congruence|].
  exists req'. split; [exact Hctx|]. rewrite He.
  unfold admissionAndLoop, admission, bind, ret. rewrite Hl.
  destruct (Z.to_nat (maxAttempts (effective_retrier req))) as [|n] eqn:Hn; [lia|].
  apply retryLoop_stops; [lia | right; right; exact Ht].
Qed.

(** A run of the loop that ends on an attempt returns that attempt. *)
Lemma retryLoop_ends_on_attempt (c : Client W) (r : Retrier) :
  forall (fuel : nat) (i : Z) (req : Request) (resp : Response) (s s' : State W)
         (req' : Request) (resp' : Response) (pre : list event) (q : Request)
         (res : DoResult),
    retryLoop fuel c r i req resp s = (Ok (req', resp'), s') ->
    log s' = log s ++ pre ++ [EvAttempt q res] ->
    Raw resp' = fst (do_result res) /\ err resp' = snd (do_result res).
Proof.
  induction fuel as [|fuel IH]; intros i req resp s s' req' resp' pre q res Hrun Hlog.
  - cbn in Hrun. injection Hrun as <- <- <-.
    rewrite <- (app_nil_r (log s)) in Hlog at 1. apply app_inv_head in Hlog.
    destruct pre; discriminate.
  - destruct (Z.ltb_spec i (maxAttempts r)) as [Hi|Hi].
    + rewrite retryLoop_step in Hrun by exact Hi. cbn zeta in Hrun.
      set (res0 := fst (http_Do c req (world s))) in *.
      destruct (_ || _ || _).
      { injection Hrun as <- <- <-. cbn [log] in Hlog.
        apply app_inv_head in Hlog.
        destruct pre as [|p pre]; cbn in Hlog.
        - injection Hlog as _ <-. cbn. destruct (do_result res0); split; reflexivity.
        - injection Hlog as _ Hlog. destruct pre; discriminate. }
      destruct (backoff r) as [b|]; [|discriminate].
      destruct (WaitTime b i _ _) as [d|]; [|discriminate].
      destruct (after_or_done d _ _) as [[|] w2].
      * destruct (retryLoop_trace c r _ _ _ _ _ _ _ Hrun) as (evs & Hl2 & _).
        cbn [log] in Hl2. rewrite Hlog, <- !app_assoc in Hl2.
        apply app_inv_head in Hl2. cbn [app] in Hl2.
        destruct (exists_last (l := evs)) as (evs0 & last & ->).
        { intros ->. destruct pre as [|p0 [|p1 pre]]; try discriminate.
          cbn in Hl2. injection Hl2 as _ _ Hl2. destruct pre; discriminate. }
        assert (Hlast : last = EvAttempt q res /\ pre = EvAttempt req res0 :: EvSleep d :: evs0).
        { change (EvAttempt req res0 :: EvSleep d :: evs0 ++ [last])
            with ((EvAttempt req res0 :: EvSleep d :: evs0) ++ [last]) in Hl2.
          apply app_inj_tail in Hl2. destruct Hl2 as [-> <-]. split; reflexivity. }
        destruct Hlast as [-> ->].
        eapply (IH _ _ _ _ _ _ _ evs0); [exact Hrun|].
        cbn [log]. rewrite Hlog. rewrite <- !app_assoc. reflexivity.
      * injection Hrun as <- <- <-. cbn [log] in Hlog.
        rewrite <- !app_assoc in Hlog. apply app_inv_head in Hlog.
        cbn [app] in Hlog.
        destruct pre as [|p0 [|p1 pre]]; try discriminate.
        cbn in Hlog. injection Hlog as _ _ Hlog. destruct pre; discriminate.
    + apply Z.ltb_ge in Hi. cbn [retryLoop] in Hrun. rewrite Hi in Hrun.
      injection Hrun as <- <- <-.
      rewrite <- (app_nil_r (log s)) in Hlog at 1. apply app_inv_head in Hlog.
      destruct pre; discriminate.
Qed.

(** X5.  Retrying never hides what the last attempt returned.  Whenever
    [doWithRetry] returns with a transport attempt as its last event
    (the index was the last one, the triggers declined, or the context
    was found cancelled after the attempt), the raw response and the
    error slot are exactly that attempt's: the context's error does not
    replace them. *)
Theorem doWithRetry_returns_last_attempt (c : Client W) (req req' : Request)
  (resp resp' : Response) (s s' : State W) (pre : list event) (q : Request)
  (res : DoResult) :
  doWithRetry c req resp s = (Ok (req', resp'), s') ->
  log s' = log s ++ pre ++ [EvAttempt q res] ->
  Raw resp' = fst (do_result res) /\ err resp' = snd (do_result res).
Proof.
  intros Hrun Hlog.
  destruct (doWithRetry_cases c req resp s) as [(e & He & _) | (rq & He & _)];
    rewrite He in Hrun.
  - injection Hrun as _ _ <-.
    rewrite <- (app_nil_r (log s)) in Hlog at 1. apply app_inv_head in Hlog.
    destruct pre; discriminate.
  - unfold admissionAndLoop, bind in Hrun.
    destruct (admission_cases c rq s) as [Ha | (l & _ & _ & Ha)]; rewrite Ha in Hrun.
    + eapply retryLoop_ends_on_attempt; eassumption.
    + destruct (fst (Wait l (ctx rq) (world s))) as [e|].
      * injection Hrun as _ _ <-. cbn [log] in Hlog.
        apply app_inv_head in Hlog.
        destruct pre as [|p pre]; [discriminate|].
        cbn in Hlog. injection Hlog as _ Hlog. destruct pre; discriminate.
      * destruct (retryLoop_trace c _ _ _ _ _ _ _ _ Hrun) as (evs & Hl2 & _).
        cbn [log] in Hl2. rewrite Hlog, <- app_assoc in Hl2.
        apply app_inv_head in Hl2. cbn [app] in Hl2.
        destruct pre as [|p pre]; [discriminate|].
        cbn in Hl2. injection Hl2 as -> <-.
        eapply (retryLoop_ends_on_attempt _ _ _ _ _ _ _ _ _ _ pre); [exact Hrun|].
        cbn [log]. rewrite Hlog, <- app_assoc. reflexivity.
Qed.





(** X8.  The loop hands the backoff the zero-based index of the attempt
    just made.  With the exponential backoff without jitter (durations
    held exactly by a float64), a trigger that always fires and a context
    that never does, the waits of a run with [maxAttempts = N] are
    [min(max, initial * 2^k)] for [k = 0, ..., N-2], in that order. *)
Theorem exponential_backoff_schedule (c : Client W) (req : Request) (resp : Response)
  (s : State W) (N a M : Z) (t : Response -> bool) :
  limiter c = None ->
  Body req = None ->
  retrier req = Some (NewRetrier N (Some (NewExponentialBackoff a M false)) [t]) ->
  (forall r, t r = true) ->
  (forall w, ctx_Err (ctx req) w = None) ->
  (forall d w, fst (after_or_done d (ctx req) w) = true) ->
  1 <= N ->
  1 <= a <= 2 ^ 53 ->
  - 2 ^ 53 <= M <= 2 ^ 53 ->
  exists out s',
    doWithRetry c req resp s = (out, s')
    /\ sleeps (log s')
       = sleeps (log s)
         ++ map (fun k => Z.min M (a * 2 ^ k)) (Zrange 0 (Z.to_nat (N - 1)))
    /\ Z.of_nat (attempts (log s')) = Z.of_nat (attempts (log s)) + N.
Proof.
  intros Hl Hb Hr Ht Hctx Hsel HN Ha HM.
  rewrite (doWithRetry_is_loop c req _ resp s Hl Hr Hb).
  cbn [maxAttempts NewRetrier].
  assert (Hbk : forall i r u, 0 <= i < N - 1 ->
                  WaitTime (NewExponentialBackoff a M false) i r u
                  = Some (Z.min M (a * 2 ^ i))).
  { intros i r u Hi. cbn [WaitTime NewExponentialBackoff].
    rewrite WaitTime_no_jitter_exact by (cbn; try reflexivity; lia).
    reflexivity. }
  destruct (retryLoop_sleeps c N _ t (ctx req) _ Ht Hctx Hsel Hbk
              (Z.to_nat N) 0 req resp s)
    as (out & s' & evs & Hrun & Hlog & Hsl); [lia | f_equal; lia | reflexivity |].
  exists out, s'. split; [exact Hrun|]. split.
  - rewrite Hlog, sleeps_app, Hsl. do 3 f_equal. lia.
  - destruct (retryLoop_all_attempts c N (Some (NewExponentialBackoff a M false)) t
                (ctx req) Ht Hctx Hsel) with (fuel := Z.to_nat N) (i := 0)
                (req := req) (resp := resp) (s := s)
      as (req' & resp' & s2 & evs2 & lastreq & res & Hrun2 & Hlog2 & Hn & _).
    + intros _. eexists. split; [reflexivity|]. intros i r u Hi.
      rewrite Hbk by lia. discriminate.
    + lia.
    + f_equal. lia.
    + reflexivity.
    + rewrite Hrun in Hrun2. injection Hrun2 as _ <-.
      rewrite Hlog2, attempts_app. lia.
Qed.

(** The pre-request chain of two lists of hooks is the chain of the
    first, then, unless it failed, the chain of the second. *)
Lemma onBeforeRequest_loop_app (hs1 hs2 : list BeforeRequestHook) (req : Request) :
  onBeforeRequest_loop (hs1 ++ hs2) req
  = match onBeforeRequest_loop hs1 req with
    | (req1, Some e) => (req1, Some e)
    | (req1, None) => onBeforeRequest_loop hs2 req1
    end.
Proof.
  revert req. induction hs1 as [|h hs1 IH]; intros req; cbn; [reflexivity|].
  destruct (h req) as [req1 [e|]]; [reflexivity | apply IH].
Qed.

(** X9.  A pre-request hook that fails stops everything: the hooks
    registered after it do not run, no transport attempt is made, the
    world is left as it was, and [Do] returns the hook's error. *)
Theorem failing_before_hook_stops_Do (c : Client W) (pre post : list BeforeRequestHook)
  (h : BeforeRequestHook) (req req1 req2 : Request) (e : error) (s : State W) :
  beforeRequestHooks c = pre ++ h :: post ->
  onBeforeRequest_loop pre req = (req1, None) ->
  h req1 = (req2, Some e) ->
  Do c req s = (Ok (set_err newResponse (Some e)), s).
Proof.
  intros Hhooks Hpre Hh. unfold Do, onBeforeRequest.
  rewrite Hhooks, onBeforeRequest_loop_app, Hpre. cbn [onBeforeRequest_loop].
  rewrite Hh. reflexivity.
Qed.

(** X10.  Hooks registered by a later [OnBeforeRequest] run after the ones
    already there, on the request those left, and only if none of them
    failed. *)
Theorem OnBeforeRequest_appends (c : Client W) (hooks : list BeforeRequestHook)
  (req : Request) :
  onBeforeRequest (OnBeforeRequest c hooks) req
  = match onBeforeRequest c req with
    | (req1, Some e) => (req1, Some e)
    | (req1, None) => onBeforeRequest_loop hooks req1
    end.
Proof.
  unfold onBeforeRequest, OnBeforeRequest. cbn [beforeRequestHooks].
  apply onBeforeRequest_loop_app.
Qed.

End PipelineMore.

(** ** Hooks, construction and admission *)

Section HooksMore.

Context {W : Type} {host : Host W}.




(** X13.  When the transport fails on a request without a retrier, [Do]
    makes that one attempt and returns the transport's error with
    whatever response came with it; the post-response hooks do not
    run. *)
Theorem transport_error_skips_after_hooks (c : Client W) (req req1 : Request)
  (r : option RawResponse) (e : error) (w : W) (s : State W) :
  onBeforeRequest c req = (req1, None) ->
  retrier req1 = None ->
  limiter c = None ->
  http_Do c (SetRetry req1 (Some noRetry)) (world s) = (DoErr r e, w) ->
  Do c req s
  = (Ok {| Raw := r; content := None; err := Some e |},
     {| world := w;
        log := log s ++ [EvAttempt (SetRetry req1 (Some noRetry)) (DoErr r e)] |}).
Proof.
  intros Hh Hr Hl Hdo. unfold Do. rewrite Hh. unfold bind at 1.
  unfold doWithRetry. rewrite Hr.
  unfold admissionAndLoop, admission. rewrite Hl. unfold bind at 1, ret at 1.
  change (Z.to_nat (maxAttempts noRetry)) with 1%nat.
  rewrite retryLoop_stops by (cbn; first [lia | right; left; lia]).
  rewrite Hdo. cbn. reflexivity.
Qed.

(** The options of [NewRequest] compose like the hooks. *)
Lemma apply_options_app (os1 os2 : list RequestOption) (req : Request) :
  apply_options (os1 ++ os2) req
  = match apply_options os1 req with
    | (req1, Some e) => (req1, Some e)
    | (req1, None) => apply_options os2 req1
    end.
Proof.
  revert req. induction os1 as [|o os1 IH]; intros req; cbn; [reflexivity|].
  destruct (o req) as [req1 [e|]]; [reflexivity | apply IH].
Qed.

(** X14.  An option that fails stops the construction: the options after
    it are not applied, and [Send] returns the option's error without
    running a hook, asking the limiter or making an attempt. *)
Theorem Send_failing_option (c : Client W) (method url : string)
  (pre post : list RequestOption) (opt : RequestOption) (req1 req2 : Request)
  (e : error) (s : State W) :
  http_NewRequest_err method url = None ->
  apply_options pre
    {| Method := method; URL := url; Body := None; GetBody := None;
       ContentLength := 0; ctx := context_Background; retrier := None |}
  = (req1, None) ->
  opt req1 = (req2, Some e) ->
  NewRequest method url (pre ++ opt :: post) = (Some req2, Some e)
  /\ Send c method url (pre ++ opt :: post) s
     = (Ok (set_err newResponse (Some e)), s).
Proof.
  intros Hn Hpre Hopt.
  assert (E : NewRequest method url (pre ++ opt :: post) = (Some req2, Some e)).
  { unfold NewRequest. rewrite Hn, apply_options_app, Hpre.
    cbn [apply_options]. rewrite Hopt. reflexivity. }
  split; [exact E|]. unfold Send. rewrite E. reflexivity.
Qed.

(** [regexpLimiter.Allow]'s loop. *)
Lemma regexpLimiter_Allow_loop_true_iff (ps : list (string -> bool)) (url : string) :
  regexpLimiter_Allow_loop ps url = true <-> Forall (fun p => p url = false) ps.
Proof.
  induction ps as [|p ps IH]; cbn.
  - split; [constructor | reflexivity].
  - destruct (p url) eqn:E.
    + split; [discriminate|]. intros H. inversion H; congruence.
    + rewrite IH. split; [intros H; constructor; assumption|].
      intros H. inversion H; assumption.
Qed.

Lemma regexpLimiter_Allow_spec (ps : list (string -> bool)) (req : Request) :
  regexpLimiter_Allow ps req = true
  <-> ps <> [] /\ Forall (fun p => p (URL req) = false) ps.
Proof.
  unfold regexpLimiter_Allow. destruct ps as [|p ps].
  - cbn. split; [discriminate | intros [H _]; congruence].
  - replace (Z.of_nat (List.length (p :: ps)) =? 0) with false
      by (symmetry; apply Z.eqb_neq; cbn [List.length]; lia).
    rewrite regexpLimiter_Allow_loop_true_iff.
    split; [intros H; split; [discriminate | exact H] | intros [_ H]; exact H].
Qed.

(** X15.  The regular-expression limiter lets a request pass without
    waiting exactly when it has patterns and none of them matches the
    request's URL. *)
Theorem regexpLimiter_Allow_iff (ps : list (string -> bool)) (req : Request) :
  regexpLimiter_Allow ps req = true
  <-> ps <> [] /\ Forall (fun p => p (URL req) = false) ps.
Proof.
  apply regexpLimiter_Allow_spec.
Qed.

(** X16.  A client that uses the regular-expression limiter waits on the
    rate limiter exactly once for every request when no pattern was given,
    and otherwise for the requests whose URL matches a pattern; the other
    requests are admitted without consulting the rate limiter. *)
Theorem regexp_limiter_admission (c : Client W)
  (rateLimiter_Wait : Context -> W -> option error * W)
  (ps : list (string -> bool)) (req : Request) (s : State W) :
  let c' := UseRateLimiter c (Some (NewRegexpLimiter rateLimiter_Wait ps)) in
  (ps = [] \/ Exists (fun p => p (URL req) = true) ps ->
   admission c' req s
   = (Ok (fst (rateLimiter_Wait (ctx req) (world s))),
      {| world := snd (rateLimiter_Wait (ctx req) (world s));
         log := log s
                ++ [EvLimiterWait (fst (rateLimiter_Wait (ctx req) (world s)))] |}))
  /\ (ps <> [] /\ Forall (fun p => p (URL req) = false) ps ->
      admission c' req s = (Ok None, s)).
Proof.
  intros c'. unfold admission, c', UseRateLimiter, NewRegexpLimiter.
  cbn [limiter Allow Wait]. split.
  - intros H.
    assert (E : regexpLimiter_Allow ps req = false).
    { destruct (regexpLimiter_Allow ps req) eqn:E; [|reflexivity].
      apply regexpLimiter_Allow_spec in E. destruct E as [Hne Hall].
      destruct H as [-> | Hex]; [congruence|].
      apply Exists_exists in Hex. destruct Hex as (p & Hin & Hp).
      rewrite Forall_forall in Hall. specialize (Hall p Hin). congruence. }
    rewrite E. cbn [negb]. unfold bind, lift, emit, ret. cbn [world log].
    destruct (rateLimiter_Wait (ctx req) (world s)); reflexivity.
  - intros H. apply regexpLimiter_Allow_spec in H. rewrite H. reflexivity.
Qed.

(** X17.  A context that is cancelled before or during the first attempt
    does not keep the attempt from being made: the context is looked at
    only after an attempt.  The attempt's own result is returned, and no
    retry follows, whatever the triggers say. *)
Theorem cancelled_context_single_attempt (c : Client W) (req : Request) (r : Retrier)
  (resp : Response) (s : State W) :
  retrier req = Some r ->
  1 <= maxAttempts r ->
  Body req = None ->
  limiter c = None ->
  ctx_Err (ctx req) (snd (http_Do c req (world s))) <> None ->
  doWithRetry c req resp s
  = (Ok (req, set_result resp (fst (do_result (fst (http_Do c req (world s)))))
                 (snd (do_result (fst (http_Do c req (world s)))))),
     {| world := snd (http_Do c req (world s));
        log := log s ++ [EvAttempt req (fst (http_Do c req (world s)))] |}).
Proof.
  intros Hr Hmax Hb Hl Hctx.
  rewrite (doWithRetry_is_loop c req r resp s Hl Hr Hb).
  destruct (Z.to_nat (maxAttempts r)) as [|n] eqn:Hn; [lia|].
  apply retryLoop_stops; [lia|]. left.
  destruct (ctx_Err _ _); [reflexivity | congruence].
Qed.

(** X18.  A retrier built without a backoff panics at its first retry:
    after one attempt that the triggers want repeated, with attempts left
    and the context not cancelled, the loop asks the nil backoff for the
    wait time. *)
Theorem nil_backoff_panics_on_retry (c : Client W) (req : Request) (r : Retrier)
  (resp : Response) (s : State W) :
  retrier req = Some r ->
  backoff r = None ->
  2 <= maxAttempts r ->
  Body req = None ->
  limiter c = None ->
  ctx_Err (ctx req) (snd (http_Do c req (world s))) = None ->
  on r (set_result resp (fst (do_result (fst (http_Do c req (world s)))))
                        (snd (do_result (fst (http_Do c req (world s)))))) = true ->
  doWithRetry c req resp s
  = (Panicked,
     {| world := snd (http_Do c req (world s));
        log := log s ++ [EvAttempt req (fst (http_Do c req (world s)))] |}).
Proof.
  intros Hr Hb Hmax Hbody Hl Hctx Hon.
  rewrite (doWithRetry_is_loop c req r resp s Hl Hr Hbody).
  destruct (Z.to_nat (maxAttempts r)) as [|n] eqn:Hn; [lia|].
  rewrite retryLoop_step by lia. cbn zeta. cbn [world].
  rewrite Hctx, Hon, Hb.
  replace (maxAttempts r - 1 <=? 0) with false by (symmetry; apply Z.leb_gt; lia).
  reflexivity.
Qed.

(** X19.  [Client.do] puts the gzip reader over a body once: applied to a
    response it has already produced without error, it changes
    nothing. *)
Theorem do_result_idempotent (r r' : RawResponse) :
  do_result (DoOk r) = (Some r', None) ->
  do_result (DoOk r') = (Some r', None).
Proof.
  unfold do_result.
  destruct (EqualFold (ContentEncoding r) "gzip" && negb (RespContentLength r =? 0))
    eqn:E.
  - destruct (RespBody r) as [bs|g] eqn:Hb.
    + destruct (gzip_NewReader_err bs); [discriminate|].
      intros [= <-]. cbn [ContentEncoding RespContentLength set_RespBody RespBody].
      rewrite E. reflexivity.
    + intros [= <-]. rewrite E, Hb. reflexivity.
  - intros [= <-]. rewrite E. reflexivity.
Qed.

End HooksMore.

(** ** More on the backoffs and on [SetBody] *)

(** X20.  The constant backoff with jitter waits between half the initial
    duration and one and a half times it (exclusive), whatever the
    attempt: for a positive initial duration below two thirds of the
    largest duration it returns [initial/2 + u mod initial]. *)
Theorem constant_wait_with_jitter_range (initial i u : Z) :
  0 < initial ->
  initial / 2 + initial <= 2 ^ 63 ->
  exists d,
    constantBackoff_WaitTime
      {| cb_initialDuration := initial; cb_jitter := true |} i u = Some d
    /\ d = initial / 2 + u mod initial
    /\ initial / 2 <= d < initial / 2 + initial.
Proof.
  intros Hpos Hmax. unfold constantBackoff_WaitTime, rand_Int63n.
  cbn [cb_jitter cb_initialDuration negb].
  replace (initial <=? 0) with false by (symmetry; apply Z.leb_gt; lia).
  pose proof (Z.mod_pos_bound u initial Hpos) as Hu.
  assert (Hq : Z.quot initial 2 = initial / 2) by (apply Z.quot_div_nonneg; lia).
  assert (Hh : 0 <= initial / 2) by (apply Z.div_pos; lia).
  rewrite Hq. eexists. split; [reflexivity|].
  rewrite wrap64_small by (unfold in_int64, int64_min, int64_max; lia).
  split; [reflexivity | lia].
Qed.

(** X21.  A stream given to [SetBody] does not displace what an earlier
    in-memory body installed: the regeneration function and the content
    length stay those of the earlier body, so that what [GetBody] hands
    to a retry is the earlier bytes; and when the earlier body was empty
    the stream is dropped for [http.NoBody]. *)
Theorem SetBody_stream_keeps_GetBody (req : Request) (v : Reader)
  (buf : list Byte.byte) (rc : ReadCloser) :
  in_memory v = Some buf ->
  let req' := SetBody (SetBody req (Some v)) (Some (OtherReader rc)) in
  (exists g, GetBody req' = Some g /\ body_bytes (fst (g tt)) = (buf, None))
  /\ ContentLength req' = len64 buf
  /\ (buf = [] -> Body req' = Some NoBody)
  /\ (buf <> [] -> Body req' = Some rc).
Proof.
  intros Hv req'.
  assert (Hlen : forall b : list Byte.byte, b <> [] -> (len64 b =? 0) = false).
  { intros b Hb. apply Z.eqb_neq. unfold len64. destruct b; [congruence|].
    cbn [List.length]. lia. }
  destruct buf as [|x buf].
  - destruct v as [b|b|b|r]; cbn in Hv; inversion Hv; subst b; cbn;
      (split; [eexists; split; reflexivity|]); repeat split;
      intros; congruence.
  - pose proof (Hlen (x :: buf) ltac:(discriminate)) as E.
    destruct v as [b|b|b|r]; cbn in Hv; inversion Hv; subst b;
      unfold req', SetBody; cbn -[Z.eqb len64]; rewrite E; cbn -[Z.eqb len64];
      rewrite E;
      (split; [eexists; split; reflexivity|]); repeat split;
      intros; congruence.
Qed.

(** ** Checks on the response (response.go) *)

(** Go's truncating division by 100 gives 2 on the codes 200 to 299 only. *)
Lemma quot_100_is_2 (sc : Z) : Z.quot sc 100 = 2 <-> 200 <= sc <= 299.
Proof.
  pose proof (Z.quot_rem' sc 100) as Hq.
  destruct (Z.le_gt_cases 0 sc) as [Hs|Hs].
  - pose proof (Z.rem_bound_pos sc 100 Hs ltac:(lia)). lia.
  - pose proof (Z.rem_bound_pos_neg sc 100 ltac:(lia) ltac:(lia)). lia.
Qed.

(** X22.  On a response without error, [EnsureStatus2xx] leaves the
    response as it is exactly for the status codes 200 to 299, and records
    the bad-status error for every other code: the truncating division
    gives 2 on no code outside that range. *)
Theorem EnsureStatus2xx_accepts_200_to_299 (Status : RawResponse -> string)
  (resp : Response) (r : RawResponse) :
  err resp = None ->
  Raw resp = Some r ->
  EnsureStatus2xx Status resp
  = Ok (if (200 <=? StatusCode r) && (StatusCode r <=? 299) then resp
        else set_err resp (Some (bad_status Status r))).
Proof.
  intros He Hr. unfold EnsureStatus2xx. rewrite He, Hr.
  destruct (Z.quot (StatusCode r) 100 =? 2) eqn:E; cbn [negb].
  - apply Z.eqb_eq, quot_100_is_2 in E.
    replace (200 <=? StatusCode r) with true by (symmetry; apply Z.leb_le; lia).
    replace (StatusCode r <=? 299) with true by (symmetry; apply Z.leb_le; lia).
    reflexivity.
  - apply Z.eqb_neq in E. rewrite quot_100_is_2 in E.
    destruct (Z.leb_spec 200 (StatusCode r)), (Z.leb_spec (StatusCode r) 299);
      cbn [andb]; first [reflexivity | lia].
Qed.

(** X23.  The status checks keep the first error.  A response that went
    through [EnsureStatusOk] is left unchanged by a following
    [EnsureStatus2xx] and by a second [EnsureStatusOk]: either it passed
    and its code is 200, or it carries an error that no later check
    replaces. *)
Theorem status_checks_keep_first_error (Status : RawResponse -> string)
  (resp resp1 : Response) :
  EnsureStatusOk Status resp = Ok resp1 ->
  EnsureStatus2xx Status resp1 = Ok resp1
  /\ EnsureStatusOk Status resp1 = Ok resp1
  /\ (err resp <> None -> resp1 = resp).
Proof.
  unfold EnsureStatusOk, EnsureStatus, EnsureStatus2xx.
  destruct (err resp) as [e|] eqn:He.
  - intros [= <-]. rewrite He. repeat split.
  - destruct (Raw resp) as [r|] eqn:Hr; [|discriminate].
    destruct (StatusCode r =? 200) eqn:E; cbn [negb]; intros [= <-].
    + rewrite He, Hr, E. apply Z.eqb_eq in E. rewrite E. cbn.
      repeat split; try congruence.
    + cbn [set_err err]. repeat split; try congruence.
Qed.

Section ChecksAfterDo.

Context {W : Type} {host : Host W}.

(** X24.  A status check on what [Do] returns panics when the retrier's
    [maxAttempts] is not positive: no attempt is made, the response has
    neither a raw response nor an error, and the check reads the status
    code through the nil raw response. *)
Theorem EnsureStatusOk_panics_after_no_attempt (Status : RawResponse -> string)
  (c : Client W) (req : Request) (r : Retrier) (s : State W) :
  beforeRequestHooks c = [] ->
  afterResponseHooks c = [] ->
  limiter c = None ->
  retrier req = Some r ->
  maxAttempts r <= 0 ->
  bind (Do c req) (fun resp => of_outcome (EnsureStatusOk Status resp)) s
  = (Panicked, s).
Proof.
  intros Hb Ha Hl Hr Hmax.
  assert (HDo : Do c req s = (Ok newResponse, s)).
  { unfold Do, onBeforeRequest. rewrite Hb. cbn [onBeforeRequest_loop].
    unfold bind, doWithRetry. rewrite Hr.
    replace (1 <? maxAttempts r) with false by (symmetry; apply Z.ltb_ge; lia).
    unfold admissionAndLoop, admission, bind, ret. rewrite Hl.
    replace (Z.to_nat (maxAttempts r)) with 0%nat by lia.
    cbn [retryLoop]. unfold ret, onAfterResponse. cbn [err newResponse].
    rewrite Ha. reflexivity. }
  unfold bind. rewrite HDo. reflexivity.
Qed.

End ChecksAfterDo.

(** X25.  [Prefetch] reads the body at most once.  After a first
    [Prefetch] a second one changes nothing and [Content] returns what
    the first one stored, the read error included, whatever the body
    would yield if it were read again. *)
Theorem Prefetch_reads_once
  (ReadAll ReadAll' : ResponseBody -> list Byte.byte * option error)
  (resp resp1 : Response) :
  Prefetch ReadAll resp = Ok resp1 ->
  Prefetch ReadAll' resp1 = Ok resp1
  /\ Content ReadAll' resp1 = Ok (content resp1, err resp1)
  /\ (err resp = None -> content resp = None -> exists r,
        Raw resp = Some r
        /\ content resp1 = Some (fst (ReadAll (RespBody r)))
        /\ err resp1 = snd (ReadAll (RespBody r))).
Proof.
  unfold Prefetch, Content.
  destruct (is_some (err resp) || is_some (content resp)) eqn:E.
  - intros [= <-]. rewrite E. split; [reflexivity|]. split; [reflexivity|].
    intros He Hc. rewrite He, Hc in E. discriminate.
  - destruct (Raw resp) as [r|] eqn:Hr; [|discriminate].
    destruct (ReadAll (RespBody r)) as [b e] eqn:Hread. intros [= <-].
    cbn [err content is_some]. rewrite orb_true_r.
    split; [reflexivity|]. split; [reflexivity|].
    intros _ _. exists r. rewrite Hread. split; [reflexivity|]. split; reflexivity.
Qed.

(** The lookup loop returns the first cookie of that name. *)
Lemma named_cookie_found (cookies : list Cookie) (name : string) (c : Cookie) :
  named_cookie cookies name = (Some c, None)
  <-> exists pre post,
        cookies = pre ++ c :: post
        /\ Name c = name
        /\ Forall (fun c' => Name c' <> name) pre.
Proof.
  induction cookies as [|c0 cookies IH]; cbn.
  - split; [discriminate|]. intros (pre & post & H & _). destruct pre; discriminate.
  - destruct (String.eqb_spec (Name c0) name) as [E|E].
    + split.
      * intros [= <-]. exists [], cookies. repeat split; [exact E | constructor].
      * intros (pre & post & H & Hn & Hall). destruct pre as [|p pre].
        -- injection H as -> _. reflexivity.
        -- injection H as <- _. inversion Hall; congruence.
    + rewrite IH. split.
      * intros (pre & post & -> & Hn & Hall). exists (c0 :: pre), post.
        repeat split; [exact Hn | constructor; assumption].
      * intros (pre & post & H & Hn & Hall). destruct pre as [|p pre].
        -- injection H as -> _. congruence.
        -- injection H as _ ->. inversion Hall. exists pre, post. repeat split; assumption.
Qed.

Lemma named_cookie_missing (cookies : list Cookie) (name : string) :
  named_cookie cookies name = (None, Some ErrNoCookie)
  <-> Forall (fun c' => Name c' <> name) cookies.
Proof.
  induction cookies as [|c0 cookies IH]; cbn.
  - split; [constructor | reflexivity].
  - destruct (String.eqb_spec (Name c0) name) as [E|E].
    + split; [discriminate|]. intros H. inversion H; congruence.
    + rewrite IH. split; [intros H; constructor; assumption|].
      intros H. inversion H; assumption.
Qed.

(** X26.  On a response without error, [Cookie] returns the first cookie
    of the response that has the name, and [ErrNoCookie] exactly when
    there is none. *)
Theorem Response_Cookie_first_named (cookies_of : RawResponse -> list Cookie)
  (resp : Response) (r : RawResponse) (name : string) :
  err resp = None ->
  Raw resp = Some r ->
  (forall c,
     Response_Cookie cookies_of resp name = Ok (Some c, None)
     <-> exists pre post,
           cookies_of r = pre ++ c :: post
           /\ Name c = name
           /\ Forall (fun c' => Name c' <> name) pre)
  /\ (Response_Cookie cookies_of resp name = Ok (None, Some ErrNoCookie)
      <-> Forall (fun c' => Name c' <> name) (cookies_of r)).
Proof.
  intros He Hr. unfold Response_Cookie, Response_Cookies. rewrite He, Hr. split.
  - intros c. rewrite <- named_cookie_found. split; [intros [= E]; exact E | congruence].
  - rewrite <- named_cookie_missing. split; [intros [= E]; exact E | congruence].
Qed.

(** X27.  [FilterCookie] reports a missing jar before it looks at the URL,
    and a URL that does not parse before it looks for the cookie; with a
    jar and a URL that parses it returns the first cookie of that name
    the jar has for the URL. *)
Theorem FilterCookie_cases (jar : option (string -> list Cookie))
  (url_Parse_err : string -> option error) (url name : string) :
  (jar = None ->
   FilterCookie jar url_Parse_err url name = (None, Some ErrNilCookieJar))
  /\ (forall cookies e,
        jar = Some cookies -> url_Parse_err url = Some e ->
        FilterCookie jar url_Parse_err url name = (None, Some e))
  /\ (forall cookies c,
        jar = Some cookies -> url_Parse_err url = None ->
        (FilterCookie jar url_Parse_err url name = (Some c, None)
         <-> exists pre post,
               cookies url = pre ++ c :: post
               /\ Name c = name
               /\ Forall (fun c' => Name c' <> name) pre)).
Proof.
  unfold FilterCookie, FilterCookies. split; [|split].
  - intros ->. reflexivity.
  - intros cookies e -> ->. reflexivity.
  - intros cookies c -> ->. apply named_cookie_found.
Qed.

(** ** Escaping (curl.go) *)

Lemma bashEscape_inj (s t : string) :
  bashEscape s = bashEscape t -> s = t.
Proof.
  unfold bashEscape. cbn [String.append]. intros [= H]. revert t H.
  induction s as [|c s IH]; intros [|d t] H; cbn in H.
  - reflexivity.
  - destruct (Ascii.eqb_spec d "'"%char) as [->|Hd]; cbn in H.
    + discriminate H.
    + injection H as H _. congruence.
  - destruct (Ascii.eqb_spec c "'"%char) as [->|Hc]; cbn in H.
    + discriminate H.
    + injection H as H _. congruence.
  - destruct (Ascii.eqb_spec c "'"%char) as [->|Hc],
             (Ascii.eqb_spec d "'"%char) as [->|Hd]; cbn in H.
    + injection H as H. f_equal. apply IH. exact H.
    + injection H as H _. congruence.
    + injection H as H _. congruence.
    + injection H as -> H. f_equal. apply IH. exact H.
Qed.

(** X28.  [bashEscape] is injective: two different arguments are never
    written as the same shell word. *)
Theorem bashEscape_injective (s t : string) :
  s <> t -> bashEscape s <> bashEscape t.
Proof.
  intros Hne H. apply Hne, bashEscape_inj, H.
Qed.

(** ** URL encoding of [Values] (ghttp.go) *)

Lemma string_app_assoc (a b c : string) : ((a ++ b) ++ c = a ++ (b ++ c))%string.
Proof. induction a as [|x a IH]; cbn; [reflexivity | rewrite IH; reflexivity]. Qed.

Lemma string_app_nonempty (a b : string) :
  a <> EmptyString -> (a ++ b)%string <> EmptyString.
Proof. destruct a; [congruence | discriminate]. Qed.

Lemma string_length_pos (a : string) :
  a <> EmptyString -> (0 <? String.length a)%nat = true.
Proof. destruct a; [congruence | reflexivity]. Qed.

(** Writing pairs to a builder that is not empty separates them all. *)
Lemma write_pairs_nonempty (l : list string) : forall sb : string,
  sb <> EmptyString ->
  fold_left (fun sb p => ((if (0 <? String.length sb)%nat then sb ++ "&" else sb) ++ p)%string)
    l sb
  = String.concat "&" (sb :: l).
Proof.
  induction l as [|p l IH]; intros sb Hsb; [reflexivity|].
  cbn [fold_left]. rewrite (string_length_pos sb Hsb).
  rewrite IH by (apply string_app_nonempty, string_app_nonempty; exact Hsb).
  destruct l as [|q l].
  - cbn [String.concat]. apply string_app_assoc.
  - change (String.concat "&" (sb :: p :: q :: l))
      with (sb ++ "&" ++ p ++ "&" ++ String.concat "&" (q :: l))%string.
    change (String.concat "&" (((sb ++ "&") ++ p)%string :: q :: l))
      with (((sb ++ "&") ++ p) ++ "&" ++ String.concat "&" (q :: l))%string.
    rewrite !string_app_assoc. reflexivity.
Qed.

Lemma write_pairs (l : list string) :
  Forall (fun p => p <> EmptyString) l ->
  fold_left (fun sb p => ((if (0 <? String.length sb)%nat then sb ++ "&" else sb) ++ p)%string)
    l EmptyString
  = String.concat "&" l.
Proof.
  intros Hall. destruct Hall as [|p l Hp _]; [reflexivity|].
  cbn [fold_left String.length Nat.ltb Nat.leb String.append].
  apply write_pairs_nonempty. exact Hp.
Qed.

(** The inner loop of [URLEncode]: the key written for the value at
    position [i] has been escaped once more than the one before. *)
Lemma URLEncode_values_fold (esc : string -> string) (escaped : bool) (k : string) :
  forall (vs : list string) (n : nat) (sb : string),
    URLEncode_values esc escaped (if escaped then Nat.iter n esc k else k) vs sb
    = fold_left
        (fun sb p => ((if (0 <? String.length sb)%nat then sb ++ "&" else sb) ++ p)%string)
        (List.map
           (fun iv : nat * string =>
              ((if escaped then Nat.iter (S (fst iv)) esc k else k)
               ++ "=" ++ (if escaped then esc (snd iv) else snd iv))%string)
           (combine (seq n (List.length vs)) vs))
        sb.
Proof.
  induction vs as [|v vs IH]; intros n sb; [reflexivity|].
  cbn [URLEncode_values List.length seq combine List.map fold_left fst snd].
  rewrite <- IH. destruct escaped; reflexivity.
Qed.

Lemma URLEncode_keys_fold (esc : string -> string) (escaped : bool)
  (vv : list (string * list string)) :
  forall (keys : list string) (sb : string),
    URLEncode_keys esc escaped vv keys sb
    = fold_left
        (fun sb p => ((if (0 <? String.length sb)%nat then sb ++ "&" else sb) ++ p)%string)
        (flat_map
           (fun k =>
              List.map
                (fun iv : nat * string =>
                   ((if escaped then Nat.iter (S (fst iv)) esc k else k)
                    ++ "=" ++ (if escaped then esc (snd iv) else snd iv))%string)
                (combine (seq 0 (List.length (map_get vv k))) (map_get vv k)))
           keys)
        sb.
Proof.
  induction keys as [|k keys IH]; intros sb; [reflexivity|].
  cbn [URLEncode_keys flat_map]. rewrite fold_left_app, IH. f_equal.
  rewrite <- URLEncode_values_fold. destruct escaped; reflexivity.
Qed.

(** X29.  [URLEncode] writes the pairs [key=value] of the sorted keys,
    separated by [&].  When it escapes, it escapes the loop's key once
    per value: the key written with the value at position [i] of its list
    has gone through [QueryEscape] [i+1] times, so from the second value
    of a key on the key is escaped again. *)
Theorem URLEncode_escapes_key_per_value (QueryEscape : string -> string) (v : Values)
  (escaped : bool) :
  Values_URLEncode QueryEscape v escaped
  = String.concat "&"
      (flat_map
         (fun k =>
            List.map
              (fun iv : nat * string =>
                 ((if escaped then Nat.iter (S (fst iv)) QueryEscape k else k)
                  ++ "=" ++ (if escaped then QueryEscape (snd iv) else snd iv))%string)
              (combine (seq 0 (List.length (map_get (Values_Decode v) k)))
                 (map_get (Values_Decode v) k)))
         (sort_Strings (List.map fst v))).
Proof.
  unfold Values_URLEncode. rewrite URLEncode_keys_fold. apply write_pairs.
  apply Forall_forall. intros p Hp.
  apply in_flat_map in Hp. destruct Hp as (k & _ & Hp).
  apply in_map_iff in Hp. destruct Hp as (iv & <- & _).
  intros H.
  destruct (if escaped then Nat.iter (S (fst iv)) QueryEscape k else k);
    discriminate H.
Qed.

(** A key with two values: the second pair carries the key escaped twice. *)
Lemma URLEncode_two_values (QueryEscape : string -> string) (k v1 v2 : string) :
  Values_URLEncode QueryEscape [(k, StringSlice [v1; v2])] true
  = (QueryEscape k ++ "=" ++ QueryEscape v1 ++ "&"
     ++ QueryEscape (QueryEscape k) ++ "=" ++ QueryEscape v2)%string.
Proof.
  unfold Values_URLEncode. cbn -[String.append String.length Nat.ltb].
  change (0 <? 2)%nat with true. cbn [map_get].
  rewrite String.eqb_refl.
  change (URLEncode_values QueryEscape true k [v1; v2] EmptyString)
    with (URLEncode_values QueryEscape true
            (if true then Nat.iter 0 QueryEscape k else k) [v1; v2] EmptyString).
  rewrite URLEncode_values_fold, write_pairs.
  { cbn [List.length seq combine List.map String.concat fst snd].
    rewrite !string_app_assoc. reflexivity. }
  repeat constructor; cbn [fst snd]; intros H;
    match type of H with (?a ++ _)%string = _ => destruct a; discriminate H end.
Qed.

(** ** The buffer pool (util.go) *)

Lemma nth_set_array (m : Memory) (a : nat) (arr : list Byte.byte) :
  (a < List.length m)%nat -> nth a (set_array m a arr) [] = arr.
Proof.
  revert a. induction m as [|x m IH]; intros [|a] H; cbn in *; try lia.
  - reflexivity.
  - apply IH. lia.
Qed.

(** A write to an empty buffer leaves its bytes at the start of the
    buffer's array. *)
Lemma Buffer_Write_empty (grow : nat -> nat) (m : Memory) (b : Buffer)
  (p : list Byte.byte) :
  buf_len b = 0%nat ->
  p <> [] ->
  exists a tail,
    buf_array (snd (Buffer_Write grow m b p)) = Some a
    /\ buf_len (snd (Buffer_Write grow m b p)) = List.length p
    /\ nth a (fst (Buffer_Write grow m b p)) [] = p ++ tail
    /\ (a < List.length (fst (Buffer_Write grow m b p)))%nat.
Proof.
  intros Hlen Hp. unfold Buffer_Write. rewrite Hlen, Nat.sub_0_r.
  destruct (Nat.leb_spec (List.length p) (List.length (array_at m (buf_array b))))
    as [Hfit|Hfit].
  - destruct (buf_array b) as [a|] eqn:Ha; cbn [array_at] in *.
    + assert (Hin : (a < List.length m)%nat).
      { destruct (Nat.lt_ge_cases a (List.length m)) as [H|H]; [exact H|].
        rewrite nth_overflow in Hfit by exact H. destruct p; [congruence|].
        cbn in Hfit. lia. }
      exists a, (skipn (List.length p) (nth a m [])). cbn [fst snd buf_array buf_len].
      repeat split.
      * rewrite nth_set_array by exact Hin. reflexivity.
      * clear - Hin. revert a Hin. induction m as [|x m IH]; intros [|a] H;
          cbn in *; try lia. apply -> Nat.succ_lt_mono. apply IH. lia.
    + destruct p; [congruence|]. cbn in Hfit. lia.
  - exists (List.length m), (repeat Byte.x00 (grow (0 + List.length p)%nat)).
    cbn [fst snd buf_array buf_len]. repeat split.
    + rewrite app_nth2, Nat.sub_diag by lia. reflexivity.
    + rewrite length_app. cbn. lia.
Qed.

(** X30.  The bytes [jsonMarshal] returns live in a pooled buffer that is
    released on return.  When the pool hands that buffer to the next
    [jsonMarshal] and the next text is not longer, the next text is
    written over the first result: the slice returned first no longer
    shows its text but the start of the second one (all of it when the
    lengths are equal). *)
Theorem jsonMarshal_result_is_overwritten (grow : nat -> nat) (choice : option nat)
  (text1 text2 : list Byte.byte) (st : PoolState) :
  Forall (fun b => buf_len b = 0%nat) (bufPool st) ->
  (List.length text2 <= List.length text1)%nat ->
  let r1 := jsonMarshal grow choice (inl text1) st in
  let r2 := jsonMarshal grow (Some 0%nat) (inl text2) (snd r1) in
  read_slice (memory (snd r1)) (fst (fst r1)) = text1
  /\ read_slice (memory (snd r2)) (fst (fst r2)) = text2
  /\ read_slice (memory (snd r2)) (fst (fst r1))
     = firstn (List.length text1)
         (text2 ++ newline :: skipn (S (List.length text2)) text1)
  /\ (List.length text2 = List.length text1 ->
      read_slice (memory (snd r2)) (fst (fst r1)) = text2).
Proof.
  intros Hpool Hle r1 r2.
  assert (Htrim : forall m a n text tail,
            nth a m [] = (text ++ [newline]) ++ tail ->
            n = List.length (text ++ [newline]) ->
            TrimSuffix_jsonSuffix m {| s_array := Some a; s_off := 0; s_len := n |}
            = {| s_array := Some a; s_off := 0; s_len := List.length text |}).
  { intros m a n text tail Hn ->. unfold TrimSuffix_jsonSuffix, read_slice.
    cbn [s_array s_off s_len array_at skipn]. rewrite Hn.
    rewrite firstn_app, Nat.sub_diag, firstn_all. cbn [firstn]. rewrite app_nil_r.
    rewrite rev_unit. cbn [Byte.eqb]. unfold newline. cbn.
    rewrite length_app. cbn [List.length]. f_equal. lia. }
  (* the first call *)
  set (acq := acquireBuffer choice st).
  assert (Hb0 : buf_len (fst acq) = 0%nat).
  { unfold acq, acquireBuffer. destruct choice as [i|]; [|reflexivity].
    destruct (nth_error (bufPool st) i) as [b|] eqn:Hn; [|reflexivity].
    cbn [fst]. rewrite Forall_forall in Hpool. apply Hpool.
    eapply nth_error_In; exact Hn. }
  destruct (Buffer_Write_empty grow (memory (snd acq)) (fst acq) (text1 ++ [newline]) Hb0)
    as (a & tail & Ha & Hl & Hn & Hin); [destruct text1; discriminate|].
  set (w1 := Buffer_Write grow (memory (snd acq)) (fst acq) (text1 ++ [newline])) in *.
  assert (E1 : r1 = ({| s_array := Some a; s_off := 0; s_len := List.length text1 |},
                     None,
                     {| memory := fst w1;
                        bufPool := {| buf_array := Some a; buf_len := 0 |}
                                   :: bufPool (snd acq) |})).
  { unfold r1, jsonMarshal. fold acq. destruct acq as [b0 st0]. cbn [fst snd] in *.
    fold w1. destruct w1 as [m1 b1]. cbn [fst snd] in *.
    unfold Buffer_Bytes, releaseBuffer, Buffer_Reset. cbn [memory bufPool].
    rewrite Ha, Hl. rewrite (Htrim m1 a _ text1 tail Hn eq_refl). reflexivity. }
  (* the second call *)
  set (st1 := snd r1).
  assert (Hst1 : st1 = {| memory := fst w1;
                          bufPool := {| buf_array := Some a; buf_len := 0 |}
                                     :: bufPool (snd acq) |})
    by (unfold st1; rewrite E1; reflexivity).
  set (p2 := text2 ++ [newline]).
  assert (Hfit : (List.length p2 <=? List.length (nth a (fst w1) []) - 0)%nat = true).
  { apply Nat.leb_le. rewrite Hn. unfold p2. rewrite !length_app. cbn. lia. }
  assert (E2 : r2 = ({| s_array := Some a; s_off := 0; s_len := List.length text2 |},
                     None,
                     {| memory := set_array (fst w1) a
                                    (copy_at (nth a (fst w1) []) 0 p2);
                        bufPool := {| buf_array := Some a; buf_len := 0 |}
                                   :: bufPool (snd acq) |})).
  { unfold r2. fold st1. rewrite Hst1. unfold jsonMarshal, acquireBuffer.
    cbn [bufPool nth_error remove_nth memory]. unfold Buffer_Write.
    cbn [buf_array buf_len array_at]. fold p2. rewrite Hfit.
    unfold Buffer_Bytes, releaseBuffer, Buffer_Reset.
    cbn [memory bufPool buf_array buf_len Nat.add].
    erewrite Htrim; [reflexivity | | reflexivity].
    rewrite nth_set_array by exact Hin. unfold copy_at. cbn [firstn app]. reflexivity. }
  assert (R1 : read_slice (memory (snd r1)) (fst (fst r1)) = text1).
  { rewrite E1. unfold read_slice. cbn [fst snd memory s_array s_off s_len array_at skipn].
    rewrite Hn, <- app_assoc, firstn_app, Nat.sub_diag, firstn_all. cbn [firstn].
    apply app_nil_r. }
  assert (R2 : read_slice (memory (snd r2)) (fst (fst r2)) = text2).
  { rewrite E2. unfold read_slice. cbn [fst snd memory s_array s_off s_len array_at skipn].
    rewrite nth_set_array by exact Hin. unfold copy_at, p2. cbn [firstn app].
    rewrite <- !app_assoc, firstn_app, Nat.sub_diag, firstn_all. cbn [firstn].
    apply app_nil_r. }
  assert (R3 : read_slice (memory (snd r2)) (fst (fst r1))
               = firstn (List.length text1)
                   (text2 ++ newline :: skipn (S (List.length text2)) text1)).
  { rewrite E1, E2. unfold read_slice.
    cbn [fst snd memory s_array s_off s_len array_at skipn].
    rewrite nth_set_array by exact Hin. unfold copy_at, p2. cbn [firstn app Nat.add].
    rewrite Hn, length_app. cbn [List.length].
    replace (List.length text2 + 1)%nat with (S (List.length text2)) by lia.
    rewrite <- !app_assoc. cbn [app].
    rewrite (skipn_app (S (List.length text2)) text1).
    change (text2 ++ newline :: skipn (S (List.length text2)) text1 ++ ?r)
      with (text2 ++ (newline :: skipn (S (List.length text2)) text1) ++ r).
    rewrite (app_assoc text2), firstn_app.
    replace (List.length text1
             - List.length (text2 ++ newline :: skipn (S (List.length text2)) text1))%nat
      with 0%nat.
    - cbn [firstn]. apply app_nil_r.
    - rewrite length_app. cbn [List.length]. rewrite length_skipn. lia. }
  split; [exact R1|]. split; [exact R2|]. split; [exact R3|].
  intros Heq. rewrite R3, <- Heq.
  rewrite firstn_app, Nat.sub_diag, firstn_all. cbn [firstn]. apply app_nil_r.
Qed.

(** ** The properties above on the simulated world *)

Lemma Do_attempts_bound_witness :
  Z.of_nat
    (attempts
       (log (snd (@Do Z sim_host sim_client
                    (sim_request 0 None (Some (sim_retrier 3))) sim_start))))
  <= Z.of_nat (attempts (log sim_start))
     + Z.max 0
         (maxAttempts
            (effective_retrier
               (fst (@onBeforeRequest Z sim_client
                       (sim_request 0 None (Some (sim_retrier 3))))))).
Proof.
  apply (@Do_attempts_bound Z sim_host sim_client
           (sim_request 0 None (Some (sim_retrier 3))) sim_start
           (snd (@Do Z sim_host sim_client
                   (sim_request 0 None (Some (sim_retrier 3))) sim_start))
           (fst (@Do Z sim_host sim_client
                   (sim_request 0 None (Some (sim_retrier 3))) sim_start))).
  apply surjective_pairing.
Defined.

Lemma doWithRetry_trace_witness :
  exists pre evs,
    log (snd (@doWithRetry Z sim_host sim_client
                (sim_request 0 None (Some (sim_retrier 3))) newResponse sim_start))
    = log sim_start ++ pre ++ evs
    /\ (pre = [] \/ exists e, pre = [EvLimiterWait e])
    /\ loop_trace evs.
Proof.
  apply (@doWithRetry_trace Z sim_host sim_client
           (sim_request 0 None (Some (sim_retrier 3))) newResponse sim_start
           (snd (@doWithRetry Z sim_host sim_client
                   (sim_request 0 None (Some (sim_retrier 3))) newResponse sim_start))
           (fst (@doWithRetry Z sim_host sim_client
                   (sim_request 0 None (Some (sim_retrier 3))) newResponse sim_start))).
  apply surjective_pairing.
Defined.


Lemma no_trigger_single_attempt_witness :
  exists req',
    ctx req' = ctx (sim_request 0 None None)
    /\ @doWithRetry Z sim_host sim_client (sim_request 0 None None) newResponse sim_start
       = (Ok (req',
              set_result newResponse
                (fst (@do_result Z sim_host
                        (fst (http_Do sim_client req' (world sim_start)))))
                (snd (@do_result Z sim_host
                        (fst (http_Do sim_client req' (world sim_start)))))),
          {| world := snd (http_Do sim_client req' (world sim_start));
             log := log sim_start
                    ++ [EvAttempt req' (fst (http_Do sim_client req' (world sim_start)))] |}).
Proof.
  apply (@no_trigger_single_attempt Z sim_host sim_client (sim_request 0 None None)
           newResponse sim_start).
  - reflexivity.
  - cbn. lia.
  - reflexivity.
  - reflexivity.
Defined.

Lemma doWithRetry_returns_last_attempt_witness :
  Raw (set_result newResponse (Some sim_unavailable) None)
  = fst (@do_result Z sim_host (DoOk sim_unavailable))
  /\ err (set_result newResponse (Some sim_unavailable) None)
     = snd (@do_result Z sim_host (DoOk sim_unavailable)).
Proof.
  apply (@doWithRetry_returns_last_attempt Z sim_host sim_client
           (sim_request 0 None None)
           (SetRetry (sim_request 0 None None) (Some noRetry))
           newResponse (set_result newResponse (Some sim_unavailable) None)
           sim_start
           {| world := 1;
              log := [EvAttempt (SetRetry (sim_request 0 None None) (Some noRetry))
                        (DoOk sim_unavailable)] |}
           []
           (SetRetry (sim_request 0 None None) (Some noRetry))
           (DoOk sim_unavailable)).
  - reflexivity.
  - reflexivity.
Defined.



Lemma exponential_backoff_schedule_witness :
  exists out s',
    @doWithRetry Z sim_host sim_client
      (sim_request 0 None
         (Some (NewRetrier 4 (Some (NewExponentialBackoff 100 250 false)) [sim_always])))
      newResponse sim_start = (out, s')
    /\ sleeps (log s')
       = sleeps (log sim_start)
         ++ List.map (fun k => Z.min 250 (100 * 2 ^ k)) (Zrange 0 (Z.to_nat (4 - 1)))
    /\ Z.of_nat (attempts (log s')) = Z.of_nat (attempts (log sim_start)) + 4.
Proof.
  apply (@exponential_backoff_schedule Z sim_host sim_client
           (sim_request 0 None
              (Some (NewRetrier 4 (Some (NewExponentialBackoff 100 250 false))
                       [sim_always])))
           newResponse sim_start 4 100 250 sim_always).
  - reflexivity.
  - reflexivity.
  - reflexivity.
  - intros r. reflexivity.
  - intros w. reflexivity.
  - intros d w. reflexivity.
  - lia.
  - lia.
  - lia.
Defined.

Lemma failing_before_hook_stops_Do_witness :
  @Do Z sim_host sim_refusing_client (sim_request 0 None None) sim_start
  = (Ok (set_err newResponse (Some "refused"%string)), sim_start).
Proof.
  apply (@failing_before_hook_stops_Do Z sim_host sim_refusing_client [] []
           (fun req => (req, Some "refused"%string))
           (sim_request 0 None None) (sim_request 0 None None)
           (sim_request 0 None None)).
  - reflexivity.
  - reflexivity.
  - reflexivity.
Defined.



Lemma transport_error_skips_after_hooks_witness :
  @Do Z sim_host sim_broken_client (sim_request 0 None None) sim_start
  = (Ok {| Raw := None; content := None; err := Some "connection refused"%string |},
     {| world := 1;
        log := log sim_start
               ++ [EvAttempt (SetRetry (sim_request 0 None None) (Some noRetry))
                     (DoErr None "connection refused"%string)] |}).
Proof.
  apply (@transport_error_skips_after_hooks Z sim_host sim_broken_client
           (sim_request 0 None None) (sim_request 0 None None)).
  - reflexivity.
  - reflexivity.
  - reflexivity.
  - reflexivity.
Defined.

Lemma Send_failing_option_witness :
  @NewRequest Z sim_host "GET" "http://example.test/"
    ([] ++ sim_failing_option :: [sim_failing_option])
  = (Some {| Method := "GET"; URL := "http://example.test/"; Body := None;
             GetBody := None; ContentLength := 0; ctx := context_Background;
             retrier := None |},
     Some "bad option"%string)
  /\ @Send Z sim_host sim_client "GET" "http://example.test/"
       ([] ++ sim_failing_option :: [sim_failing_option]) sim_start
     = (Ok (set_err newResponse (Some "bad option"%string)), sim_start).
Proof.
  apply (@Send_failing_option Z sim_host sim_client "GET" "http://example.test/"
           [] [sim_failing_option] sim_failing_option
           {| Method := "GET"; URL := "http://example.test/"; Body := None;
              GetBody := None; ContentLength := 0; ctx := context_Background;
              retrier := None |}).
  - reflexivity.
  - reflexivity.
  - reflexivity.
Defined.

Lemma cancelled_context_single_attempt_witness :
  @doWithRetry Z sim_host sim_client (sim_request 1 None (Some (sim_retrier 3)))
    newResponse sim_start
  = (Ok (sim_request 1 None (Some (sim_retrier 3)),
         set_result newResponse
           (fst (@do_result Z sim_host
                   (fst (http_Do sim_client (sim_request 1 None (Some (sim_retrier 3)))
                           (world sim_start)))))
           (snd (@do_result Z sim_host
                   (fst (http_Do sim_client (sim_request 1 None (Some (sim_retrier 3)))
                           (world sim_start)))))),
     {| world := snd (http_Do sim_client (sim_request 1 None (Some (sim_retrier 3)))
                        (world sim_start));
        log := log sim_start
               ++ [EvAttempt (sim_request 1 None (Some (sim_retrier 3)))
                     (fst (http_Do sim_client (sim_request 1 None (Some (sim_retrier 3)))
                             (world sim_start)))] |}).
Proof.
  apply (@cancelled_context_single_attempt Z sim_host sim_client
           (sim_request 1 None (Some (sim_retrier 3))) (sim_retrier 3)).
  - reflexivity.
  - cbn. lia.
  - reflexivity.
  - reflexivity.
  - discriminate.
Defined.

Lemma nil_backoff_panics_on_retry_witness :
  @doWithRetry Z sim_host sim_client
    (sim_request 0 None (Some (NewRetrier 3 None [sim_always]))) newResponse sim_start
  = (Panicked,
     {| world := snd (http_Do sim_client
                        (sim_request 0 None (Some (NewRetrier 3 None [sim_always])))
                        (world sim_start));
        log := log sim_start
               ++ [EvAttempt (sim_request 0 None (Some (NewRetrier 3 None [sim_always])))
                     (fst (http_Do sim_client
                             (sim_request 0 None (Some (NewRetrier 3 None [sim_always])))
                             (world sim_start)))] |}).
Proof.
  apply (@nil_backoff_panics_on_retry Z sim_host sim_client
           (sim_request 0 None (Some (NewRetrier 3 None [sim_always])))
           (NewRetrier 3 None [sim_always])).
  - reflexivity.
  - reflexivity.
  - cbn. lia.
  - reflexivity.
  - reflexivity.
  - reflexivity.
  - reflexivity.
Defined.

Lemma do_result_idempotent_witness :
  @do_result Z sim_host
    (DoOk (set_RespBody sim_compressed (GzipBody (Some [Byte.x1f; Byte.x8b; Byte.x08]))))
  = (Some (set_RespBody sim_compressed (GzipBody (Some [Byte.x1f; Byte.x8b; Byte.x08]))),
     None).
Proof.
  apply (@do_result_idempotent Z sim_host sim_compressed).
  reflexivity.
Defined.

Lemma constant_wait_with_jitter_range_witness :
  exists d,
    constantBackoff_WaitTime {| cb_initialDuration := 10; cb_jitter := true |} 0 7 = Some d
    /\ d = 10 / 2 + 7 mod 10
    /\ 10 / 2 <= d < 10 / 2 + 10.
Proof.
  apply (constant_wait_with_jitter_range 10 0 7).
  - lia.
  - cbn. lia.
Defined.

Lemma SetBody_stream_keeps_GetBody_witness :
  (exists g,
     GetBody (SetBody (SetBody (sim_request 0 None None) (Some (BytesBuffer [Byte.x61])))
                (Some (OtherReader (Stream [Byte.x62] None)))) = Some g
     /\ body_bytes (fst (g tt)) = ([Byte.x61], None))
  /\ ContentLength
       (SetBody (SetBody (sim_request 0 None None) (Some (BytesBuffer [Byte.x61])))
          (Some (OtherReader (Stream [Byte.x62] None)))) = len64 [Byte.x61]
  /\ ([Byte.x61] = [] ->
      Body (SetBody (SetBody (sim_request 0 None None) (Some (BytesBuffer [Byte.x61])))
              (Some (OtherReader (Stream [Byte.x62] None)))) = Some NoBody)
  /\ ([Byte.x61] <> [] ->
      Body (SetBody (SetBody (sim_request 0 None None) (Some (BytesBuffer [Byte.x61])))
              (Some (OtherReader (Stream [Byte.x62] None))))
      = Some (Stream [Byte.x62] None)).
Proof.
  apply (SetBody_stream_keeps_GetBody (sim_request 0 None None)
           (BytesBuffer [Byte.x61]) [Byte.x61] (Stream [Byte.x62] None)).
  reflexivity.
Defined.

Lemma EnsureStatus2xx_accepts_200_to_299_witness :
  EnsureStatus2xx sim_Status (set_result newResponse (Some sim_unavailable) None)
  = Ok (if (200 <=? StatusCode sim_unavailable) && (StatusCode sim_unavailable <=? 299)
        then set_result newResponse (Some sim_unavailable) None
        else set_err (set_result newResponse (Some sim_unavailable) None)
               (Some (bad_status sim_Status sim_unavailable))).
Proof.
  apply (EnsureStatus2xx_accepts_200_to_299 sim_Status
           (set_result newResponse (Some sim_unavailable) None) sim_unavailable).
  - reflexivity.
  - reflexivity.
Defined.

Lemma status_checks_keep_first_error_witness :
  EnsureStatus2xx sim_Status
    (set_err (set_result newResponse (Some sim_unavailable) None)
       (Some (bad_status sim_Status sim_unavailable)))
  = Ok (set_err (set_result newResponse (Some sim_unavailable) None)
          (Some (bad_status sim_Status sim_unavailable))).
Proof.
  apply (status_checks_keep_first_error sim_Status
           (set_result newResponse (Some sim_unavailable) None)).
  reflexivity.
Defined.

Lemma EnsureStatusOk_panics_after_no_attempt_witness :
  bind (@Do Z sim_host sim_client (sim_request 0 None (Some (sim_retrier 0))))
    (fun resp => of_outcome (EnsureStatusOk sim_Status resp)) sim_start
  = (Panicked, sim_start).
Proof.
  apply (@EnsureStatusOk_panics_after_no_attempt Z sim_host sim_Status sim_client
           (sim_request 0 None (Some (sim_retrier 0))) (sim_retrier 0)).
  - reflexivity.
  - reflexivity.
  - reflexivity.
  - reflexivity.
  - cbn. lia.
Defined.

Lemma Prefetch_reads_once_witness :
  Prefetch (fun _ => ([], Some "http: read on closed response body"%string))
    {| Raw := Some sim_compressed; content := Some [Byte.x1f; Byte.x8b; Byte.x08];
       err := None |}
  = Ok {| Raw := Some sim_compressed; content := Some [Byte.x1f; Byte.x8b; Byte.x08];
          err := None |}.
Proof.
  apply (Prefetch_reads_once sim_ReadAll
           (fun _ => ([], Some "http: read on closed response body"%string))
           (set_result newResponse (Some sim_compressed) None)).
  reflexivity.
Defined.

Lemma Response_Cookie_first_named_witness :
  Response_Cookie sim_cookies (set_result newResponse (Some sim_unavailable) None) "sid"
  = Ok (Some {| Name := "sid"; Value := "1" |}, None).
Proof.
  apply (proj1 (Response_Cookie_first_named sim_cookies
                  (set_result newResponse (Some sim_unavailable) None)
                  sim_unavailable "sid" eq_refl eq_refl)).
  exists [ {| Name := "lang"; Value := "en" |} ], [ {| Name := "sid"; Value := "2" |} ].
  split; [reflexivity|]. split; [reflexivity|].
  constructor; [discriminate | constructor].
Defined.

Lemma bashEscape_injective_witness :
  bashEscape "it's" <> bashEscape "its".
Proof.
  apply (bashEscape_injective "it's" "its"). discriminate.
Defined.

Lemma jsonMarshal_result_is_overwritten_witness :
  read_slice
    (memory
       (snd (jsonMarshal (fun n => n) (Some 0%nat) (inl [Byte.x5b; Byte.x5d])
               (snd (jsonMarshal (fun n => n) None (inl [Byte.x7b; Byte.x7d])
                       {| memory := []; bufPool := [] |})))))
    (fst (fst (jsonMarshal (fun n => n) None (inl [Byte.x7b; Byte.x7d])
                 {| memory := []; bufPool := [] |})))
  = [Byte.x5b; Byte.x5d].
Proof.
  apply (jsonMarshal_result_is_overwritten (fun n => n) None
           [Byte.x7b; Byte.x7d] [Byte.x5b; Byte.x5d]
           {| memory := []; bufPool := [] |}).
  - constructor.
  - cbn. lia.
  - reflexivity.
Defined.
